(** * BACKTESTER: the buy-the-dip / sell-on-profit engines of [app.py]

    A shallow embedding of [backtest_stock] and [backtest_futures]
    (src/app.py, lines 23-149) and the properties of the written
    specification that concern them.

    Modelling conventions.
    - The two functions are written once, over a small interface of the
      arithmetic they use ([Number]), in an error monad for the Python
      exceptions their operations can raise.
    - The interface has two instances.  [Binary64.float_number] is the
      arithmetic of the program: Rocq's primitive binary64 numbers, with
      their rounding, their infinities and NaN.  [Q_number] is exact
      rational arithmetic, in which no operation rounds.
    - What depends only on the comparisons of the loops and on the
      bookkeeping of their variables (which block a bar runs, what the
      variables and the rows then hold, when a call raises) is proved
      once, for every arithmetic that satisfies the laws of [Lawful], and
      so for both instances: sizes, targets and profits are then the
      values the loop computes.  What is a matter of figures (the
      scenario of the specification, the decimal rounding of the recorded
      values, the amounts of the ledger) is proved for exact rationals,
      and the scenario is run on binary64 numbers as well.
    - The part of the script that uses the two functions (lines 195-241:
      the Close column without its missing values, the run, the four
      figures shown) is modelled after them, with the outcomes a press of
      the button can have.
    - A price series is a list of [(date, price)] pairs in the order of
      [prices.items()]; a missing price ([pd.isna]) is [None].
    - [pd.DataFrame(trades)] is the list of the trade records;
      [pd.Series(equity, index=prices.index)] pairs the values with the
      index and raises [ValueError] when their lengths differ. *)

From Stdlib Require Import ZArith QArith Qround Qabs List Bool Lia Lqa.
From Stdlib Require Import Sorted.
From Stdlib Require PrimFloat SpecFloat FloatOps FloatAxioms.
Import ListNotations.

Set Implicit Arguments.

(** ** Exceptions and the error monad *)

Inductive exn : Set :=
| TypeError
| ZeroDivisionError
| ValueError.

Inductive result (A : Type) : Type :=
| Ok (a : A)
| Raise (e : exn).

Arguments Ok {A} a.
Arguments Raise {A} e.

Definition bind {A B : Type} (m : result A) (k : A -> result B) : result B :=
  match m with
  | Ok a => k a
  | Raise e => Raise e
  end.

Declare Scope result_scope.
Delimit Scope result_scope with result.
Notation "x <- m ;; k" := (bind m (fun x => k))
  (at level 61, m at next level, right associativity) : result_scope.
Open Scope result_scope.

(** [for x in xs: body], threading the local variables as a state. *)
Fixpoint for_each {S B : Type} (body : S -> B -> result S)
         (xs : list B) (s : S) : result S :=
  match xs with
  | [] => Ok s
  | x :: xs' => s' <- body s x ;; for_each body xs' s'
  end.

(** ** The arithmetic the engines use *)

Class Number (R : Type) : Type := {
  of_int : Z -> R;
  add : R -> R -> R;
  sub : R -> R -> R;
  mul : R -> R -> R;
  quot : R -> R -> R;          (* the quotient, of numbers *)
  is_zero : R -> bool;
  leb : R -> R -> bool;        (* x <= y *)
  ltb : R -> R -> bool;        (* x < y *)
  isna : R -> bool;            (* pd.isna on a number *)
  round : R -> Z -> R          (* round(x, ndigits) *)
}.

Declare Scope num_scope.
Delimit Scope num_scope with num.
Infix "+" := add : num_scope.
Infix "-" := sub : num_scope.
Infix "*" := mul : num_scope.
Infix "<=?" := leb : num_scope.
Infix "<?" := ltb : num_scope.
Notation "x >=? y" := (leb y x) (at level 70) : num_scope.
Notation "x >? y" := (ltb y x) (at level 70) : num_scope.

(** Python's [x / y]: raises on a zero divisor. *)
Definition truediv {R} `{Number R} (x y : R) : result R :=
  if is_zero y then Raise ZeroDivisionError else Ok (quot x y).

(** An operand that is [None] where a number is needed. *)
Definition number {R} (o : option R) : result R :=
  match o with
  | Some x => Ok x
  | None => Raise TypeError
  end.

(** ** Exact rational arithmetic *)

(** Python's [round]: to the nearest multiple of [10^-n], ties to even. *)
Definition round_half_even (q : Q) : Z :=
  let f := Qfloor q in
  match (q - inject_Z f ?= 1 # 2)%Q with
  | Lt => f
  | Gt => (f + 1)%Z
  | Eq => if Z.even f then f else (f + 1)%Z
  end.

Definition Qround_ndigits (x : Q) (n : Z) : Q :=
  (inject_Z (round_half_even (x * inject_Z (10 ^ n))) / inject_Z (10 ^ n))%Q.

#[export] Instance Q_number : Number Q := {|
  of_int := inject_Z;
  add := Qplus;
  sub := Qminus;
  mul := Qmult;
  quot := Qdiv;
  is_zero := fun x => Qeq_bool x 0%Q;
  leb := Qle_bool;
  ltb := fun x y => negb (Qle_bool y x);
  isna := fun _ => false;
  round := Qround_ndigits
|}.

(** ** Output records *)

Inductive action : Set :=
| BUY_INIT
| BUY_ADD
| SELL_ALL.

Definition Date : Set := Z.

(** A row of the stock ledger: the keys [date], [action], [price],
    [shares], and [cost] (buys) or [pnl] (sells). *)
Record stock_trade (R : Type) : Type := {
  t_date : Date;
  t_action : action;
  t_price : R;
  t_shares : R;
  t_cost : option R;
  t_pnl : option R
}.

(** A row of the futures ledger: [lots] in place of [shares]. *)
Record futures_trade (R : Type) : Type := {
  f_date : Date;
  f_action : action;
  f_price : R;
  f_lots : Z;
  f_cost : option R;
  f_pnl : option R
}.

(** [pd.Series(values, index=index)]. *)
Definition pd_Series {A} (values : list A) (index : list Date)
  : result (list (Date * A)) :=
  if Nat.eqb (length values) (length index)
  then Ok (combine index values)
  else Raise ValueError.

Section Engines.

Context {R : Type} `{Number R}.
Local Open Scope num_scope.

(** [pd.isna(price) or price <= 0] *)
Definition invalid (price : option R) : bool :=
  match price with
  | None => true
  | Some p => isna p || (p <=? of_int 0)
  end.

(** ** backtest_stock *)

Record stock_config : Type := {
  initial_inr : R;
  add_inr : R;
  drop_pct : R;
  profit_pct : R
}.

(** The local variables of [backtest_stock]. *)
Record stock_state : Type := {
  trades : list (stock_trade R);
  equity : list R;
  realized_pnl : R;
  position_cost : R;
  position_shares : R;
  last_buy_price : option R;
  in_position : bool
}.

Definition stock_init : stock_state := {|
  trades := [];
  equity := [];
  realized_pnl := of_int 0;
  position_cost := of_int 0;
  position_shares := of_int 0;
  last_buy_price := None;
  in_position := false
|}.

(** Lines 37-48: open a position. *)
Definition stock_open (c : stock_config) (s : stock_state)
           (date : Date) (price : R) : result stock_state :=
  shares <- truediv (initial_inr c) price ;;
  Ok {| trades := trades s ++
                  [{| t_date := date; t_action := BUY_INIT;
                      t_price := round price 2;
                      t_shares := round shares 4;
                      t_cost := Some (initial_inr c); t_pnl := None |}];
        equity := equity s;
        realized_pnl := realized_pnl s;
        position_cost := initial_inr c;
        position_shares := shares;
        last_buy_price := Some price;
        in_position := true |}.

(** Lines 50-62: add on a dip. *)
Definition stock_add (c : stock_config) (s : stock_state)
           (date : Date) (price : R) : result stock_state :=
  last <- number (last_buy_price s) ;;
  d <- truediv (last - price) last ;;
  let drop := d * of_int 100 in
  if drop >=? drop_pct c then
    add_shares <- truediv (add_inr c) price ;;
    Ok {| trades := trades s ++
                    [{| t_date := date; t_action := BUY_ADD;
                        t_price := round price 2;
                        t_shares := round add_shares 4;
                        t_cost := Some (add_inr c); t_pnl := None |}];
          equity := equity s;
          realized_pnl := realized_pnl s;
          position_cost := position_cost s + add_inr c;
          position_shares := position_shares s + add_shares;
          last_buy_price := Some price;
          in_position := in_position s |}
  else Ok s.

(** Lines 64-80: sell on the profit target. *)
Definition stock_sell (c : stock_config) (s : stock_state)
           (date : Date) (price : R) : result stock_state :=
  if position_shares s >? of_int 0 then
    avg_price <- truediv (position_cost s) (position_shares s) ;;
    p <- truediv (profit_pct c) (of_int 100) ;;
    if price >=? avg_price * (of_int 1 + p) then
      let proceeds := price * position_shares s in
      let pnl := proceeds - position_cost s in
      Ok {| trades := trades s ++
                      [{| t_date := date; t_action := SELL_ALL;
                          t_price := round price 2;
                          t_shares := round (position_shares s) 4;
                          t_cost := None; t_pnl := Some (round pnl 2) |}];
            equity := equity s;
            realized_pnl := realized_pnl s + pnl;
            position_cost := of_int 0;
            position_shares := of_int 0;
            last_buy_price := None;
            in_position := false |}
    else Ok s
  else Ok s.

(** Lines 82-83: mark the bar to market. *)
Definition stock_mark (s : stock_state) (price : R) : stock_state :=
  let unrealized :=
    if in_position s then position_shares s * price else of_int 0 in
  {| trades := trades s;
     equity := equity s ++ [realized_pnl s + unrealized];
     realized_pnl := realized_pnl s;
     position_cost := position_cost s;
     position_shares := position_shares s;
     last_buy_price := last_buy_price s;
     in_position := in_position s |}.

(** Lines 33-83: the body of the loop. *)
Definition stock_bar (c : stock_config) (s : stock_state)
           (bar : Date * option R) : result stock_state :=
  let (date, oprice) := bar in
  if invalid oprice then Ok s                       (* continue *)
  else
    price <- number oprice ;;
    s1 <- (if negb (in_position s) then stock_open c s date price
           else
             s' <- stock_add c s date price ;;
             stock_sell c s' date price) ;;
    Ok (stock_mark s1 price).

Definition backtest_stock_loop (c : stock_config)
           (prices : list (Date * option R)) : result stock_state :=
  for_each (stock_bar c) prices stock_init.

(** Line 85: the two outputs. *)
Definition backtest_stock (c : stock_config)
           (prices : list (Date * option R))
  : result (list (stock_trade R) * list (Date * R)) :=
  s <- backtest_stock_loop c prices ;;
  curve <- pd_Series (equity s) (map fst prices) ;;
  Ok (trades s, curve).

(** ** backtest_futures *)

Record futures_config : Type := {
  initial_lots : Z;
  add_lot_every_drop : R;
  fprofit_pct : R;
  lot_value : R
}.

(** The local variables of [backtest_futures]; [lots] is a Python [int]. *)
Record futures_state : Type := {
  ftrades : list (futures_trade R);
  fequity : list R;
  frealized_pnl : R;
  total_cost : R;
  lots : Z;
  flast_buy_price : option R;
  fin_position : bool
}.

Definition futures_init : futures_state := {|
  ftrades := [];
  fequity := [];
  frealized_pnl := of_int 0;
  total_cost := of_int 0;
  lots := 0;
  flast_buy_price := None;
  fin_position := false
|}.

(** Lines 102-112: open a position. *)
Definition futures_open (c : futures_config) (s : futures_state)
           (date : Date) (price : R) : result futures_state :=
  let lots' := initial_lots c in
  let total_cost' := of_int lots' * price * lot_value c in
  Ok {| ftrades := ftrades s ++
                   [{| f_date := date; f_action := BUY_INIT;
                       f_price := round price 2;
                       f_lots := lots';
                       f_cost := Some (round total_cost' 2);
                       f_pnl := None |}];
        fequity := fequity s;
        frealized_pnl := frealized_pnl s;
        total_cost := total_cost';
        lots := lots';
        flast_buy_price := Some price;
        fin_position := true |}.

(** Lines 114-126: add one lot on a dip. *)
Definition futures_add (c : futures_config) (s : futures_state)
           (date : Date) (price : R) : result futures_state :=
  last <- number (flast_buy_price s) ;;
  d <- truediv (last - price) last ;;
  let drop := d * of_int 100 in
  if drop >=? add_lot_every_drop c then
    let lots' := (lots s + 1)%Z in
    let additional_cost := price * lot_value c in
    Ok {| ftrades := ftrades s ++
                     [{| f_date := date; f_action := BUY_ADD;
                         f_price := round price 2;
                         f_lots := lots';
                         f_cost := Some (round additional_cost 2);
                         f_pnl := None |}];
          fequity := fequity s;
          frealized_pnl := frealized_pnl s;
          total_cost := total_cost s + additional_cost;
          lots := lots';
          flast_buy_price := Some price;
          fin_position := fin_position s |}
  else Ok s.

(** Lines 128-144: sell on the profit target. *)
Definition futures_sell (c : futures_config) (s : futures_state)
           (date : Date) (price : R) : result futures_state :=
  if (0 <? lots s)%Z then
    avg_price <- truediv (total_cost s) (of_int (lots s) * lot_value c) ;;
    p <- truediv (fprofit_pct c) (of_int 100) ;;
    if price >=? avg_price * (of_int 1 + p) then
      let proceeds := of_int (lots s) * price * lot_value c in
      let pnl := proceeds - total_cost s in
      Ok {| ftrades := ftrades s ++
                       [{| f_date := date; f_action := SELL_ALL;
                           f_price := round price 2;
                           f_lots := lots s;
                           f_cost := None; f_pnl := Some (round pnl 2) |}];
            fequity := fequity s;
            frealized_pnl := frealized_pnl s + pnl;
            total_cost := of_int 0;
            lots := 0;
            flast_buy_price := None;
            fin_position := false |}
    else Ok s
  else Ok s.

(** Lines 146-147: mark the bar to market. *)
Definition futures_mark (c : futures_config) (s : futures_state)
           (price : R) : futures_state :=
  let unrealized :=
    if fin_position s then of_int (lots s) * price * lot_value c
    else of_int 0 in
  {| ftrades := ftrades s;
     fequity := fequity s ++ [frealized_pnl s + unrealized];
     frealized_pnl := frealized_pnl s;
     total_cost := total_cost s;
     lots := lots s;
     flast_buy_price := flast_buy_price s;
     fin_position := fin_position s |}.

(** Lines 98-147: the body of the loop. *)
Definition futures_bar (c : futures_config) (s : futures_state)
           (bar : Date * option R) : result futures_state :=
  let (date, oprice) := bar in
  if invalid oprice then Ok s                       (* continue *)
  else
    price <- number oprice ;;
    s1 <- (if negb (fin_position s) then futures_open c s date price
           else
             s' <- futures_add c s date price ;;
             futures_sell c s' date price) ;;
    Ok (futures_mark c s1 price).

Definition backtest_futures_loop (c : futures_config)
           (prices : list (Date * option R)) : result futures_state :=
  for_each (futures_bar c) prices futures_init.

(** Line 149: the two outputs. *)
Definition backtest_futures (c : futures_config)
           (prices : list (Date * option R))
  : result (list (futures_trade R) * list (Date * R)) :=
  s <- backtest_futures_loop c prices ;;
  curve <- pd_Series (fequity s) (map fst prices) ;;
  Ok (ftrades s, curve).

End Engines.

Arguments stock_config R : clear implicits.
Arguments stock_state R : clear implicits.
Arguments futures_config R : clear implicits.
Arguments futures_state R : clear implicits.

(** * Vocabulary of the properties *)

Section SkippedBars.

Context {R : Type} `{Number R}.

(** The bars the loop does not skip. *)
Definition valid_bars (prices : list (Date * option R)) :
  list (Date * option R) :=
  filter (fun bar => negb (invalid (snd bar))) prices.

End SkippedBars.

Section Vocabulary.

Local Open Scope Q_scope.

(** The rows the three blocks of the stock loop append (lines 42-48,
    56-62 and 70-76). *)
Definition buy_init_row (c : stock_config Q) (date : Date) (price : Q)
  : stock_trade Q :=
  {| t_date := date; t_action := BUY_INIT; t_price := round price 2;
     t_shares := round (initial_inr c / price) 4;
     t_cost := Some (initial_inr c); t_pnl := None |}.

Definition buy_add_row (c : stock_config Q) (date : Date) (price : Q)
  : stock_trade Q :=
  {| t_date := date; t_action := BUY_ADD; t_price := round price 2;
     t_shares := round (add_inr c / price) 4;
     t_cost := Some (add_inr c); t_pnl := None |}.

Definition sell_all_row (s : stock_state Q) (date : Date) (price : Q)
  : stock_trade Q :=
  {| t_date := date; t_action := SELL_ALL; t_price := round price 2;
     t_shares := round (position_shares s) 4;
     t_cost := None;
     t_pnl := Some (round (price * position_shares s - position_cost s) 2) |}.

(** The drawdown of line 50. *)
Definition drawdown (last price : Q) : Q := (last - price) / last * 100.

(** The average entry price of line 65 and the target of line 66. *)
Definition avg_price (s : stock_state Q) : Q :=
  position_cost s / position_shares s.

Definition target (avg profit : Q) : Q := avg * (1 + profit / 100).

(** The rows of the futures loop (lines 106-112, 120-126 and 134-140). *)
Definition fbuy_init_row (c : futures_config Q) (date : Date) (price : Q)
  : futures_trade Q :=
  {| f_date := date; f_action := BUY_INIT; f_price := round price 2;
     f_lots := initial_lots c;
     f_cost := Some (round (inject_Z (initial_lots c) * price * lot_value c) 2);
     f_pnl := None |}.

Definition fbuy_add_row (c : futures_config Q) (s : futures_state Q)
           (date : Date) (price : Q) : futures_trade Q :=
  {| f_date := date; f_action := BUY_ADD; f_price := round price 2;
     f_lots := lots s + 1;
     f_cost := Some (round (price * lot_value c) 2);
     f_pnl := None |}.

Definition fsell_all_row (c : futures_config Q) (s : futures_state Q)
           (date : Date) (price : Q) : futures_trade Q :=
  {| f_date := date; f_action := SELL_ALL; f_price := round price 2;
     f_lots := lots s;
     f_cost := None;
     f_pnl := Some (round (inject_Z (lots s) * price * lot_value c
                           - total_cost s) 2) |}.

(** The average entry price of line 129. *)
Definition favg_price (c : futures_config Q) (s : futures_state Q) : Q :=
  total_cost s / (inject_Z (lots s) * lot_value c).

(** States from which a bar cannot raise: an open position has a last
    entry price, and it is positive. *)
Definition stock_safe (s : stock_state Q) : Prop :=
  in_position s = true -> exists last, last_buy_price s = Some last /\ 0 < last.

Definition futures_safe (s : futures_state Q) : Prop :=
  fin_position s = true ->
  exists last, flast_buy_price s = Some last /\ 0 < last.

(** A series without a bar to skip. *)
Definition all_valid (prices : list (Date * option Q)) : Prop :=
  forall bar, In bar prices -> invalid (snd bar) = false.

(** The configuration of the scenario of the specification, which is
    also the default of [backtest_stock]. *)
Definition scenario_config : stock_config Q :=
  {| initial_inr := 10000; add_inr := 10000; drop_pct := 2; profit_pct := 5 |}.

Definition scenario_prices : list (Date * option Q) :=
  [(1%Z, Some 100); (2%Z, Some 100); (3%Z, Some 97); (4%Z, Some 97);
   (5%Z, Some 102)].

(** The arguments the application passes to [backtest_futures]
    (line 214), with the default thresholds of its sliders. *)
Definition app_futures_config : futures_config Q :=
  {| initial_lots := 1; add_lot_every_drop := 2; fprofit_pct := 5;
     lot_value := 1 |}.

(** The actions a bar appends, from the outcome of its two tests. *)
Definition bar_actions (add_hit sell_hit : bool) : list action :=
  (if add_hit then [BUY_ADD] else []) ++ (if sell_hit then [SELL_ALL] else []).

(** The test of line 51 (and 115). *)
Definition add_hit (threshold last price : Q) : bool :=
  Qle_bool threshold (drawdown last price).

(** The tests of lines 64-66 (and 128-130), on an average price. *)
Definition sell_hit (held : bool) (avg profit price : Q) : bool :=
  held && Qle_bool (target avg profit) price.

(** A configuration with a negative drop threshold, under which a rising
    price triggers an add. *)
Definition eager_config : stock_config Q :=
  {| initial_inr := 10000; add_inr := 10000; drop_pct := -100;
     profit_pct := 5 |}.

Definition eager_futures_config : futures_config Q :=
  {| initial_lots := 1; add_lot_every_drop := -100; fprofit_pct := 5;
     lot_value := 1 |}.

(** The position after a first bar at price 100. *)
Definition opened_at_100 : stock_state Q :=
  {| trades := [buy_init_row eager_config 1%Z 100];
     equity := [10000];
     realized_pnl := 0;
     position_cost := 10000;
     position_shares := 100;
     last_buy_price := Some 100;
     in_position := true |}.

(** [x] is [v] to two decimals. *)
Definition approx (x v : Q) : Prop := Qabs (x - v) <= 5 # 1000.

(** A position of 100 shares bought at 100. *)
Definition held_100_at_100 : stock_state Q :=
  {| trades := []; equity := []; realized_pnl := 0;
     position_cost := 10000; position_shares := 100;
     last_buy_price := Some 100; in_position := true |}.

(** While a position is open its cost basis is at least its size at the
    last entry price: every add was made at a lower price. *)
Definition bought_above (s : stock_state Q) : Prop :=
  in_position s = true ->
  exists last, last_buy_price s = Some last /\ 0 < last /\
    0 < position_shares s /\
    last * position_shares s <= position_cost s.

End Vocabulary.

(** * Vocabulary of the further properties *)

Section Steps.

Local Open Scope Q_scope.

(** What the three blocks of the stock loop do to the variables. *)
Definition opens (c : stock_config Q) (date : Date) (price : Q)
           (s s' : stock_state Q) : Prop :=
  trades s' = trades s ++ [buy_init_row c date price] /\
  equity s' = equity s /\
  realized_pnl s' = realized_pnl s /\
  position_cost s' = initial_inr c /\
  position_shares s' = initial_inr c / price /\
  last_buy_price s' = Some price /\
  in_position s' = true.

Definition adds (c : stock_config Q) (date : Date) (price last : Q)
           (s s' : stock_state Q) : Prop :=
  (drop_pct c <= drawdown last price /\
   trades s' = trades s ++ [buy_add_row c date price] /\
   equity s' = equity s /\
   realized_pnl s' = realized_pnl s /\
   position_cost s' = position_cost s + add_inr c /\
   position_shares s' = position_shares s + add_inr c / price /\
   last_buy_price s' = Some price /\
   in_position s' = in_position s)
  \/ (drawdown last price < drop_pct c /\ s' = s).

Definition sells (c : stock_config Q) (date : Date) (price : Q)
           (s s' : stock_state Q) : Prop :=
  (0 < position_shares s /\
   target (avg_price s) (profit_pct c) <= price /\
   trades s' = trades s ++ [sell_all_row s date price] /\
   equity s' = equity s /\
   realized_pnl s' =
     realized_pnl s + (price * position_shares s - position_cost s) /\
   position_cost s' = 0 /\
   position_shares s' = 0 /\
   last_buy_price s' = None /\
   in_position s' = false)
  \/ ((position_shares s <= 0 \/
       price < target (avg_price s) (profit_pct c)) /\ s' = s).

(** The same for the futures loop. *)
Definition fopens (c : futures_config Q) (date : Date) (price : Q)
           (s s' : futures_state Q) : Prop :=
  ftrades s' = ftrades s ++ [fbuy_init_row c date price] /\
  fequity s' = fequity s /\
  frealized_pnl s' = frealized_pnl s /\
  total_cost s' = inject_Z (initial_lots c) * price * lot_value c /\
  lots s' = initial_lots c /\
  flast_buy_price s' = Some price /\
  fin_position s' = true.

Definition fadds (c : futures_config Q) (date : Date) (price last : Q)
           (s s' : futures_state Q) : Prop :=
  (add_lot_every_drop c <= drawdown last price /\
   ftrades s' = ftrades s ++ [fbuy_add_row c s date price] /\
   fequity s' = fequity s /\
   frealized_pnl s' = frealized_pnl s /\
   total_cost s' = total_cost s + price * lot_value c /\
   lots s' = (lots s + 1)%Z /\
   flast_buy_price s' = Some price /\
   fin_position s' = fin_position s)
  \/ (drawdown last price < add_lot_every_drop c /\ s' = s).

Definition fsells (c : futures_config Q) (date : Date) (price : Q)
           (s s' : futures_state Q) : Prop :=
  (~ lot_value c == 0 /\
   (0 < lots s)%Z /\
   target (favg_price c s) (fprofit_pct c) <= price /\
   ftrades s' = ftrades s ++ [fsell_all_row c s date price] /\
   fequity s' = fequity s /\
   frealized_pnl s' =
     frealized_pnl s
     + (inject_Z (lots s) * price * lot_value c - total_cost s) /\
   total_cost s' = 0 /\
   lots s' = 0%Z /\
   flast_buy_price s' = None /\
   fin_position s' = false)
  \/ (((lots s <= 0)%Z \/
       (~ lot_value c == 0 /\
        price < target (favg_price c s) (fprofit_pct c))) /\ s' = s).

(** ** The shape of a ledger *)

(** The position cycle a sequence of actions goes through, from a position
    open or not: a BUY_INIT opens, a BUY_ADD needs an open position, a
    SELL_ALL closes.  [None] when the sequence is not such a cycle. *)
Fixpoint position_cycle (open : bool) (actions : list action) : option bool :=
  match actions with
  | [] => Some open
  | BUY_INIT :: rest => if open then None else position_cycle true rest
  | BUY_ADD :: rest => if open then position_cycle true rest else None
  | SELL_ALL :: rest => if open then position_cycle false rest else None
  end.

Definition action_eqb (a b : action) : bool :=
  match a, b with
  | BUY_INIT, BUY_INIT | BUY_ADD, BUY_ADD | SELL_ALL, SELL_ALL => true
  | _, _ => false
  end.

Definition count_action (a : action) (actions : list action) : nat :=
  length (filter (action_eqb a) actions).

(** The number of adds since the last BUY_INIT or SELL_ALL. *)
Definition adds_since_open (actions : list action) : Z :=
  fold_left (fun k a => match a with BUY_ADD => (k + 1)%Z | _ => 0%Z end)
            actions 0%Z.

End Steps.

(** * The application's use of the engines (lines 195-241)

    What the script computes from the downloaded table once the button is
    pressed: the Close column without its missing values, a run of the
    engine of the chosen mode, and the four figures it shows.  The table
    is the list of its rows, of which only the date and the Close value
    are used; the charts and the exports that follow are not modelled. *)

Inductive mode : Set :=
| Stock
| Futures.

(** What the [try] block can raise: an exception of the engines, or the
    [IndexError] of [equity.iloc[-1]]. *)
Inductive app_exn : Set :=
| Python (e : exn)
| IndexError.

Record metrics (R : Type) : Type := {
  final_equity : R;
  total_return : R;
  total_trades : nat;
  win_rate : option R
}.

(** The outcome of a press of the button: the "no data" message and
    [st.stop()], the error message of the [except] clause, or the figures
    shown. *)
Inductive outcome (R : Type) : Type :=
| NoData
| Failed (e : app_exn)
| Shown (m : metrics R).

Arguments NoData {R}.
Arguments Failed {R} e.
Arguments Shown {R} m.

Section Application.

Context {R : Type} `{Number R}.
Local Open Scope num_scope.

(** [df["Close"].dropna()], line 204. *)
Definition dropna (close : list (Date * option R)) : list (Date * option R) :=
  filter (fun row : Date * option R =>
            match snd row with
            | Some x => negb (isna x)
            | None => false
            end) close.

(** Lines 208-215: the run, of which the figures use the [pnl] column of
    the ledger, its number of rows, and the curve. *)
Definition run_engine (m : mode) (w : stock_config R)
           (prices : list (Date * option R))
  : result (list (option R) * list (Date * R)) :=
  match m with
  | Stock =>
      out <- backtest_stock w prices ;;
      Ok (map (@t_pnl R) (fst out), snd out)
  | Futures =>
      out <- backtest_futures
               {| initial_lots := 1;
                  add_lot_every_drop := drop_pct w;
                  fprofit_pct := profit_pct w;
                  lot_value := of_int 1 |} prices ;;
      Ok (map (@f_pnl R) (fst out), snd out)
  end.

(** [equity.iloc[-1]], line 225. *)
Fixpoint iloc_last (curve : list (Date * R)) : option R :=
  match curve with
  | [] => None
  | [point] => Some (snd point)
  | _ :: rest => iloc_last rest
  end.

(** [trades['pnl'].notna()], line 237. *)
Definition notna (cell : option R) : bool :=
  match cell with
  | Some x => negb (isna x)
  | None => false
  end.

(** [completed['pnl'] > 0], line 239. *)
Definition is_win (cell : option R) : bool :=
  match cell with
  | Some x => x >? of_int 0
  | None => false
  end.

Definition has_value (cell : option R) : bool :=
  match cell with
  | Some _ => true
  | None => false
  end.

(** Lines 236-241: the win rate, shown when the ledger has a [pnl] column
    (some row has the key) with a value in it. *)
Definition win_rate_of (pnl : list (option R)) : result (option R) :=
  if existsb has_value pnl then
    let completed := filter notna pnl in
    match completed with
    | [] => Ok None
    | _ :: _ =>
        let wins := length (filter is_win completed) in
        q <- truediv (of_int (Z.of_nat wins))
                     (of_int (Z.of_nat (length completed))) ;;
        Ok (Some (q * of_int 100))
    end
  else Ok None.

(** Lines 200-241. *)
Definition show_results (m : mode) (w : stock_config R)
           (close : list (Date * option R)) : outcome R :=
  match close with
  | [] => NoData                                  (* df.empty *)
  | _ :: _ =>
      match run_engine m w (dropna close) with
      | Raise e => Failed (Python e)
      | Ok (pnl, curve) =>
          match iloc_last curve with
          | None => Failed IndexError
          | Some final =>
              (* line 229: a numpy float64 divided by the amount, which
                 raises nothing, whatever the amount *)
              let q := quot (final - initial_inr w) (initial_inr w) in
              match win_rate_of pnl with
              | Raise e => Failed (Python e)
              | Ok rate =>
                  Shown {| final_equity := final;
                           total_return := q * of_int 100;
                           total_trades := length pnl;
                           win_rate := rate |}
              end
          end
      end
  end.

End Application.

Section Wins.

Local Open Scope Q_scope.

(** A row whose [pnl], if it has one, is a gain. *)
Definition gain_row (t : stock_trade Q) : Prop :=
  forall v, t_pnl t = Some v -> 0 < v.

(** What the loop maintains under the bounds of the sidebar. *)
Definition gains_so_far (s : stock_state Q) : Prop :=
  Forall gain_row (trades s) /\
  (in_position s = true -> 100 <= position_cost s).

End Wins.

(** * Vocabulary of the properties that hold of any arithmetic

    The comparisons of the two loops decide what a bar does; the laws
    below are what the properties of this part need of them.  They hold of
    exact rationals and of binary64 numbers alike (instances [Q_lawful]
    and [Binary64Laws.float_lawful]), so that what is proved from them is
    proved of the arithmetic of the machine, rounding, overflow, underflow
    and NaN included. *)

Class Lawful (R : Type) `{Number R} : Prop := {
  (* a price the loop does not skip is not 0 *)
  valid_is_not_zero : forall p : R, invalid (Some p) = false -> is_zero p = false;
  (* [x > 0] excludes [x == 0] *)
  positive_is_not_zero : forall x : R, ltb (of_int 0) x = true -> is_zero x = false;
  hundred_is_not_zero : is_zero (of_int 100 : R) = false;
  (* [x >= x], for a number that is not NaN *)
  leb_refl : forall x : R, isna x = false -> leb x x = true;
  zero_is_not_positive : ltb (of_int 0 : R) (of_int 0) = false;
  (* a sum of two positive numbers is positive *)
  add_positive : forall x y : R,
      ltb (of_int 0) x = true -> ltb (of_int 0) y = true ->
      ltb (of_int 0) (add x y) = true
}.

Arguments Lawful R {_}.

Section Computed.

Context {R : Type} `{Number R}.
Local Open Scope num_scope.

(** [x > 0], in the arithmetic of the run. *)
Definition above_zero (x : R) : Prop := (x >? of_int 0) = true.

(** The drawdown of line 50 (114), as the loop computes it. *)
Definition computed_drawdown (last price : R) : R :=
  quot (last - price) last * of_int 100.

(** The target of line 66 (130), as the loop computes it. *)
Definition computed_target (avg profit : R) : R :=
  avg * (of_int 1 + quot profit (of_int 100)).

(** The tests of lines 51 and 64-66. *)
Definition add_test (c : stock_config R) (last price : R) : bool :=
  computed_drawdown last price >=? drop_pct c.

Definition sell_test (c : stock_config R) (s : stock_state R) (price : R)
  : bool :=
  (position_shares s >? of_int 0)
  && (price >=? computed_target (quot (position_cost s) (position_shares s))
                                (profit_pct c)).

(** The P/L of line 68. *)
Definition computed_pnl (s : stock_state R) (price : R) : R :=
  price * position_shares s - position_cost s.

(** The rows of lines 42-48, 56-62 and 70-76. *)
Definition opening_row (c : stock_config R) (date : Date) (price : R)
  : stock_trade R :=
  {| t_date := date; t_action := BUY_INIT; t_price := round price 2;
     t_shares := round (quot (initial_inr c) price) 4;
     t_cost := Some (initial_inr c); t_pnl := None |}.

Definition adding_row (c : stock_config R) (date : Date) (price : R)
  : stock_trade R :=
  {| t_date := date; t_action := BUY_ADD; t_price := round price 2;
     t_shares := round (quot (add_inr c) price) 4;
     t_cost := Some (add_inr c); t_pnl := None |}.

Definition selling_row (s : stock_state R) (date : Date) (price : R)
  : stock_trade R :=
  {| t_date := date; t_action := SELL_ALL; t_price := round price 2;
     t_shares := round (position_shares s) 4;
     t_cost := None; t_pnl := Some (round (computed_pnl s price) 2) |}.

(** The variables after each of the three blocks of the stock loop. *)
Definition opened (c : stock_config R) (s : stock_state R)
           (date : Date) (price : R) : stock_state R :=
  {| trades := trades s ++ [opening_row c date price];
     equity := equity s;
     realized_pnl := realized_pnl s;
     position_cost := initial_inr c;
     position_shares := quot (initial_inr c) price;
     last_buy_price := Some price;
     in_position := true |}.

Definition added (c : stock_config R) (s : stock_state R)
           (date : Date) (price : R) : stock_state R :=
  {| trades := trades s ++ [adding_row c date price];
     equity := equity s;
     realized_pnl := realized_pnl s;
     position_cost := position_cost s + add_inr c;
     position_shares := position_shares s + quot (add_inr c) price;
     last_buy_price := Some price;
     in_position := in_position s |}.

Definition sold (s : stock_state R) (date : Date) (price : R)
  : stock_state R :=
  {| trades := trades s ++ [selling_row s date price];
     equity := equity s;
     realized_pnl := realized_pnl s + computed_pnl s price;
     position_cost := of_int 0;
     position_shares := of_int 0;
     last_buy_price := None;
     in_position := false |}.

(** The position after the add block of a bar, and after its sell block. *)
Definition after_add (c : stock_config R) (s : stock_state R)
           (date : Date) (last price : R) : stock_state R :=
  if add_test c last price then added c s date price else s.

Definition after_sell (c : stock_config R) (s : stock_state R)
           (date : Date) (price : R) : stock_state R :=
  if sell_test c s price then sold s date price else s.

(** The variables after the trades of a valid bar, before the bar is
    marked to market (lines 36-80). *)
Definition traded (c : stock_config R) (s : stock_state R)
           (date : Date) (price : R) : stock_state R :=
  if in_position s then
    match last_buy_price s with
    | Some last => after_sell c (after_add c s date last price) date price
    | None => s              (* not a state between two bars *)
    end
  else opened c s date price.

(** The same for the futures loop (lines 115, 128-130, 132). *)
Definition fadd_test (c : futures_config R) (last price : R) : bool :=
  computed_drawdown last price >=? add_lot_every_drop c.

Definition fsize (c : futures_config R) (n : Z) : R := of_int n * lot_value c.

Definition fsell_test (c : futures_config R) (s : futures_state R) (price : R)
  : bool :=
  (0 <? lots s)%Z
  && (price >=? computed_target (quot (total_cost s) (fsize c (lots s)))
                                (fprofit_pct c)).

Definition fcomputed_pnl (c : futures_config R) (s : futures_state R)
           (price : R) : R :=
  of_int (lots s) * price * lot_value c - total_cost s.

(** The rows of lines 106-112, 120-126 and 134-140. *)
Definition fopening_row (c : futures_config R) (date : Date) (price : R)
  : futures_trade R :=
  {| f_date := date; f_action := BUY_INIT; f_price := round price 2;
     f_lots := initial_lots c;
     f_cost := Some (round (of_int (initial_lots c) * price * lot_value c) 2);
     f_pnl := None |}.

Definition fadding_row (c : futures_config R) (s : futures_state R)
           (date : Date) (price : R) : futures_trade R :=
  {| f_date := date; f_action := BUY_ADD; f_price := round price 2;
     f_lots := (lots s + 1)%Z;
     f_cost := Some (round (price * lot_value c) 2);
     f_pnl := None |}.

Definition fselling_row (c : futures_config R) (s : futures_state R)
           (date : Date) (price : R) : futures_trade R :=
  {| f_date := date; f_action := SELL_ALL; f_price := round price 2;
     f_lots := lots s;
     f_cost := None; f_pnl := Some (round (fcomputed_pnl c s price) 2) |}.

Definition fopened (c : futures_config R) (s : futures_state R)
           (date : Date) (price : R) : futures_state R :=
  {| ftrades := ftrades s ++ [fopening_row c date price];
     fequity := fequity s;
     frealized_pnl := frealized_pnl s;
     total_cost := of_int (initial_lots c) * price * lot_value c;
     lots := initial_lots c;
     flast_buy_price := Some price;
     fin_position := true |}.

Definition fadded (c : futures_config R) (s : futures_state R)
           (date : Date) (price : R) : futures_state R :=
  {| ftrades := ftrades s ++ [fadding_row c s date price];
     fequity := fequity s;
     frealized_pnl := frealized_pnl s;
     total_cost := total_cost s + price * lot_value c;
     lots := (lots s + 1)%Z;
     flast_buy_price := Some price;
     fin_position := fin_position s |}.

Definition fsold (c : futures_config R) (s : futures_state R)
           (date : Date) (price : R) : futures_state R :=
  {| ftrades := ftrades s ++ [fselling_row c s date price];
     fequity := fequity s;
     frealized_pnl := frealized_pnl s + fcomputed_pnl c s price;
     total_cost := of_int 0;
     lots := 0;
     flast_buy_price := None;
     fin_position := false |}.

Definition fafter_add (c : futures_config R) (s : futures_state R)
           (date : Date) (last price : R) : futures_state R :=
  if fadd_test c last price then fadded c s date price else s.

Definition fafter_sell (c : futures_config R) (s : futures_state R)
           (date : Date) (price : R) : futures_state R :=
  if fsell_test c s price then fsold c s date price else s.

Definition ftraded (c : futures_config R) (s : futures_state R)
           (date : Date) (price : R) : futures_state R :=
  if fin_position s then
    match flast_buy_price s with
    | Some last => fafter_sell c (fafter_add c s date last price) date price
    | None => s              (* not a state between two bars *)
    end
  else fopened c s date price.

(** ** The state between two bars *)

(** A position fully closed: the variables as line 26-30 (91-95) set them
    and as a SELL_ALL resets them. *)
Definition flat (s : stock_state R) : Prop :=
  in_position s = false /\ position_shares s = of_int 0 /\
  position_cost s = of_int 0 /\ last_buy_price s = None.

Definition fflat (s : futures_state R) : Prop :=
  fin_position s = false /\ lots s = 0%Z /\
  total_cost s = of_int 0 /\ flast_buy_price s = None.

(** What every bar preserves: the position is closed, or it is open with
    a last entry price that was a valid price. *)
Definition between_bars (s : stock_state R) : Prop :=
  (in_position s = true /\
   exists last, last_buy_price s = Some last /\ invalid (Some last) = false)
  \/ flat s.

Definition fbetween_bars (c : futures_config R) (s : futures_state R) : Prop :=
  (fin_position s = true /\ (initial_lots c <= lots s)%Z /\
   exists last, flast_buy_price s = Some last /\ invalid (Some last) = false)
  \/ fflat s.

(** ** The sales of a run *)









(** A series with a bar the loop skips. *)
Definition has_skipped_bar (prices : list (Date * option R)) : Prop :=
  exists bar, In bar prices /\ invalid (snd bar) = true.

End Computed.

(** ** Binary64 arithmetic *)

Module Binary64.

Import PrimFloat SpecFloat FloatOps.

#[local] Set Warnings "-inexact-float".

(** [float(z)]: the nearest binary64 number, ties to even.  (Beyond the
    largest finite number Python raises [OverflowError]; the conversion
    here gives infinity.) *)
Definition float_of_Z (z : Z) : float :=
  SF2Prim (binary_normalize prec emax z 0 false).

(** The rational a finite binary64 number is. *)
Definition Q_of_float (x : float) : Q :=
  match Prim2SF x with
  | S754_finite sign m e =>
      let v := if (0 <=? e)%Z then inject_Z (Zpos m * 2 ^ e)
               else (inject_Z (Zpos m) / inject_Z (2 ^ (- e)))%Q in
      if sign then Qopp v else v
  | _ => 0%Q
  end.

(** The binary64 number nearest to a rational, ties to even: the
    quotient is cut after at least 64 significant bits, a last bit records
    whether anything was cut off, and the rounding of the format does the
    rest. *)
Definition float_of_Q (q : Q) : float :=
  let n := Qnum q in
  let d := Zpos (Qden q) in
  let a := Z.abs n in
  let s := Z.max 0 (Z.log2 d - Z.log2 a + 64) in
  let k := (a * 2 ^ s / d)%Z in
  let sticky := if (a * 2 ^ s mod d =? 0)%Z then 0%Z else 1%Z in
  let m := (2 * k + sticky)%Z in
  SF2Prim (binary_normalize prec emax (if (n <? 0)%Z then (- m)%Z else m)
                            (- (s + 1)) false).

(** [round(x, n)] on a float, for [n >= 0]: the decimal rounding, ties to
    even, of the rational that [x] is, then the nearest float; a result of
    0 keeps the sign of [x], and an infinity or a NaN is returned as it
    is. *)
Definition float_round (x : float) (n : Z) : float :=
  match Prim2SF x with
  | S754_finite sign _ _ =>
      let q := Qround_ndigits (Q_of_float x) n in
      if Qeq_bool q 0 then (if sign then neg_zero else zero)
      else float_of_Q q
  | _ => x
  end.

#[local] Instance float_number : Number float :=
  Build_Number float_of_Z PrimFloat.add PrimFloat.sub PrimFloat.mul
    PrimFloat.div (fun x => PrimFloat.eqb x PrimFloat.zero)
    PrimFloat.leb PrimFloat.ltb PrimFloat.is_nan float_round.

Definition scenario_config64 : stock_config float :=
  {| initial_inr := 10000; add_inr := 10000; drop_pct := 2;
     profit_pct := 5 |}%float.

Definition scenario_prices64 : list (Date * option float) :=
  [(1%Z, Some 100); (2%Z, Some 100); (3%Z, Some 97); (4%Z, Some 97);
   (5%Z, Some 102)]%float.

(** The arguments the application passes to [backtest_futures]. *)
Definition app_futures_config64 : futures_config float :=
  {| initial_lots := 1; add_lot_every_drop := 2; fprofit_pct := 5;
     lot_value := 1 |}%float.

(** A position of 100 shares bought at 100, and one of one lot. *)
Definition held_100_at_100_64 : stock_state float :=
  {| trades := []; equity := []; realized_pnl := 0;
     position_cost := 10000; position_shares := 100;
     last_buy_price := Some 100; in_position := true |}%float.

Definition one_lot_at_100_64 : futures_state float :=
  {| ftrades := []; fequity := []; frealized_pnl := 0;
     total_cost := 100; lots := 1;
     flast_buy_price := Some 100; fin_position := true |}%float.

(** Thresholds of 3 and 10 percent. *)
Definition boundary_config64 : stock_config float :=
  {| initial_inr := 10000; add_inr := 10000; drop_pct := 3;
     profit_pct := 10 |}%float.

(** Amounts so small that the shares they buy at a price of 1e10
    underflow to 0. *)
Definition tiny_amounts64 : stock_config float :=
  {| initial_inr := 1e-320; add_inr := 1e-320; drop_pct := 2;
     profit_pct := 5 |}%float.



End Binary64.

(** * Properties *)

(** ** Control flow, for any arithmetic *)

Lemma bind_Ok {A B} (m : result A) (k : A -> result B) (b : B) :
  bind m k = Ok b -> exists a, m = Ok a /\ k a = Ok b.
Proof.
  destruct m as [a|e]; simpl; intro E; [ exists a; auto | discriminate ].
Qed.

Ltac bind_inv H :=
  let a := fresh "a" in
  let Ha := fresh "Hm" in
  apply bind_Ok in H; destruct H as [a [Ha H]].

Ltac ok_inv H := injection H as H; subst.

Lemma for_each_app {S B} (body : S -> B -> result S) xs ys (s : S) :
  for_each body (xs ++ ys) s = (s' <- for_each body xs s ;; for_each body ys s').
Proof.
  revert s; induction xs as [|x xs IH]; intro s; simpl; [ reflexivity | ].
  destruct (body s x); simpl; auto.
Qed.

(** An invariant of the loop body that holds initially holds of the
    final state. *)
Lemma for_each_invariant {S B} (body : S -> B -> result S) (P : S -> Prop) :
  (forall s x s', P s -> body s x = Ok s' -> P s') ->
  forall xs s s', P s -> for_each body xs s = Ok s' -> P s'.
Proof.
  intros Hstep xs; induction xs as [|x xs IH]; simpl; intros s s' Hs E.
  - ok_inv E; assumption.
  - bind_inv E. eauto.
Qed.

(** An invariant of the bodies run on the elements of the list. *)
Lemma for_each_invariant_in {S B} (body : S -> B -> result S) (P : S -> Prop)
      (xs : list B) :
  (forall s x s', In x xs -> P s -> body s x = Ok s' -> P s') ->
  forall s s', P s -> for_each body xs s = Ok s' -> P s'.
Proof.
  induction xs as [|x xs IH]; cbn [for_each]; intros Hstep s s' Hs E.
  - ok_inv E; assumption.
  - bind_inv E.
    apply (IH (fun s0 y s1 Hy => Hstep s0 y s1 (or_intror Hy)) a);
      [ | assumption ].
    apply (Hstep s x a); [ left; reflexivity | assumption | assumption ].
Qed.

(** A body that cannot raise from a state satisfying an invariant makes
    the whole loop return. *)
Lemma for_each_total {S B} (body : S -> B -> result S) (P : S -> Prop) :
  (forall s x, P s -> exists s', body s x = Ok s' /\ P s') ->
  forall xs s, P s -> exists s', for_each body xs s = Ok s' /\ P s'.
Proof.
  intros Hstep xs; induction xs as [|x xs IH]; simpl; intros s Hs.
  - eauto.
  - destruct (Hstep s x Hs) as [s1 [E1 H1]]. rewrite E1; simpl. auto.
Qed.

Section ControlFlow.

Context {R : Type} `{Number R}.

Lemma stock_bar_skip (c : stock_config R) s date price :
  invalid price = true -> stock_bar c s (date, price) = Ok s.
Proof. intro E; unfold stock_bar; rewrite E; reflexivity. Qed.

Lemma futures_bar_skip (c : futures_config R) s date price :
  invalid price = true -> futures_bar c s (date, price) = Ok s.
Proof. intro E; unfold futures_bar; rewrite E; reflexivity. Qed.

Lemma stock_open_equity (c : stock_config R) s date price s' :
  stock_open c s date price = Ok s' -> equity s' = equity s.
Proof.
  unfold stock_open; intro E; bind_inv E; ok_inv E; reflexivity.
Qed.

Lemma stock_add_equity (c : stock_config R) s date price s' :
  stock_add c s date price = Ok s' -> equity s' = equity s.
Proof.
  unfold stock_add; intro E; bind_inv E; bind_inv E.
  destruct (leb _ _); [ bind_inv E | ]; ok_inv E; reflexivity.
Qed.

Lemma stock_sell_equity (c : stock_config R) s date price s' :
  stock_sell c s date price = Ok s' -> equity s' = equity s.
Proof.
  unfold stock_sell; intro E.
  destruct (ltb _ _); [ bind_inv E; bind_inv E; destruct (leb _ _) | ];
    ok_inv E; reflexivity.
Qed.

Lemma stock_bar_equity (c : stock_config R) s date price s' :
  invalid price = false ->
  stock_bar c s (date, price) = Ok s' ->
  length (equity s') = S (length (equity s)).
Proof.
  intros V E; unfold stock_bar in E; rewrite V in E.
  bind_inv E; bind_inv E; ok_inv E.
  unfold stock_mark; simpl; rewrite length_app; simpl.
  replace (equity a0) with (equity s); [ lia | ].
  destruct (negb (in_position s)).
  - symmetry; eapply stock_open_equity; eauto.
  - bind_inv Hm0.
    apply stock_add_equity in Hm1; apply stock_sell_equity in Hm0; congruence.
Qed.

Lemma futures_add_equity (c : futures_config R) s date price s' :
  futures_add c s date price = Ok s' -> fequity s' = fequity s.
Proof.
  unfold futures_add; intro E; bind_inv E; bind_inv E.
  destruct (leb _ _); ok_inv E; reflexivity.
Qed.

Lemma futures_sell_equity (c : futures_config R) s date price s' :
  futures_sell c s date price = Ok s' -> fequity s' = fequity s.
Proof.
  unfold futures_sell; intro E.
  destruct (Z.ltb _ _); [ bind_inv E; bind_inv E; destruct (leb _ _) | ];
    ok_inv E; reflexivity.
Qed.

Lemma futures_bar_equity (c : futures_config R) s date price s' :
  invalid price = false ->
  futures_bar c s (date, price) = Ok s' ->
  length (fequity s') = S (length (fequity s)).
Proof.
  intros V E; unfold futures_bar in E; rewrite V in E.
  bind_inv E; bind_inv E; ok_inv E.
  unfold futures_mark; simpl; rewrite length_app; simpl.
  replace (fequity a0) with (fequity s); [ lia | ].
  destruct (negb (fin_position s)).
  - unfold futures_open in Hm0; ok_inv Hm0; reflexivity.
  - bind_inv Hm0.
    apply futures_add_equity in Hm1; apply futures_sell_equity in Hm0;
      congruence.
Qed.

Lemma stock_loop_equity_length (c : stock_config R) prices :
  forall s s', for_each (stock_bar c) prices s = Ok s' ->
  length (equity s') = (length (equity s) + length (valid_bars prices))%nat.
Proof.
  induction prices as [|[date price] prices IH];
    cbn [for_each valid_bars filter snd length]; intros s s' E.
  - ok_inv E; lia.
  - bind_inv E. fold (valid_bars prices).
    destruct (invalid price) eqn:V; cbn [negb length].
    + rewrite stock_bar_skip in Hm by assumption. ok_inv Hm. auto.
    + apply stock_bar_equity in Hm; [ | assumption ].
      rewrite (IH _ _ E), Hm; lia.
Qed.

Lemma futures_loop_equity_length (c : futures_config R) prices :
  forall s s', for_each (futures_bar c) prices s = Ok s' ->
  length (fequity s') = (length (fequity s) + length (valid_bars prices))%nat.
Proof.
  induction prices as [|[date price] prices IH];
    cbn [for_each valid_bars filter snd length]; intros s s' E.
  - ok_inv E; lia.
  - bind_inv E. fold (valid_bars prices).
    destruct (invalid price) eqn:V; cbn [negb length].
    + rewrite futures_bar_skip in Hm by assumption. ok_inv Hm. auto.
    + apply futures_bar_equity in Hm; [ | assumption ].
      rewrite (IH _ _ E), Hm; lia.
Qed.

End ControlFlow.

(** ** The loops on any arithmetic

    What the bars of a run do, whatever the numbers are: the lemmas of
    this part use the comparison laws of [Lawful] only, so that they
    hold of binary64 numbers as of exact rationals. *)

Section AnyArithmetic.

Context {R : Type} `{Lawful R}.
Local Open Scope num_scope.

Lemma truediv_returns (x y : R) :
  is_zero y = false -> truediv x y = Ok (quot x y).
Proof. intro Z; unfold truediv; rewrite Z; reflexivity. Qed.

Lemma percent_returns (x : R) :
  truediv x (of_int 100) = Ok (quot x (of_int 100)).
Proof. apply truediv_returns, hundred_is_not_zero. Qed.

Lemma valid_is_a_number (p : R) : invalid (Some p) = false -> isna p = false.
Proof.
  cbn [invalid]; intro V; apply orb_false_iff in V; destruct V; assumption.
Qed.

(** *** The blocks of the stock loop *)

Lemma stock_open_opened (c : stock_config R) s date price :
  is_zero price = false ->
  stock_open c s date price = Ok (opened c s date price).
Proof.
  intro Z; unfold stock_open; rewrite truediv_returns by assumption.
  reflexivity.
Qed.

Lemma stock_add_after (c : stock_config R) s date last price :
  last_buy_price s = Some last -> is_zero last = false ->
  is_zero price = false ->
  stock_add c s date price = Ok (after_add c s date last price).
Proof.
  intros L Zl Zp; unfold stock_add, after_add, add_test, computed_drawdown.
  rewrite L; cbn [number bind].
  rewrite truediv_returns by assumption; cbn [bind].
  destruct (leb _ _); [ | reflexivity ].
  rewrite truediv_returns by assumption; reflexivity.
Qed.

Lemma stock_sell_after (c : stock_config R) s date price :
  stock_sell c s date price = Ok (after_sell c s date price).
Proof.
  unfold stock_sell, after_sell, sell_test, computed_target.
  destruct (position_shares s >? of_int 0) eqn:G; [ | reflexivity ].
  rewrite truediv_returns by (apply positive_is_not_zero; assumption).
  cbn [bind andb]; rewrite percent_returns; cbn [bind].
  destruct (leb _ _); reflexivity.
Qed.

(** A valid bar, from a state between two bars: the trades, then the
    mark to market. *)
Lemma stock_bar_traded (c : stock_config R) s date price :
  between_bars s -> invalid (Some price) = false ->
  stock_bar c s (date, Some price)
  = Ok (stock_mark (traded c s date price) price).
Proof.
  intros B V; unfold stock_bar, traded; rewrite V; cbn [number bind].
  pose proof (valid_is_not_zero _ V) as Zp.
  destruct B as [[I [last [L Vl]]]|[I _]]; rewrite I; cbn [negb].
  - rewrite L.
    rewrite stock_add_after with (last := last)
      by (try apply valid_is_not_zero; assumption).
    cbn [bind]; rewrite stock_sell_after; reflexivity.
  - rewrite stock_open_opened by assumption; reflexivity.
Qed.

Lemma after_sell_cases (c : stock_config R) s date price :
  (sell_test c s price = true /\ after_sell c s date price = sold s date price)
  \/ (sell_test c s price = false /\ after_sell c s date price = s).
Proof. unfold after_sell; destruct (sell_test c s price); auto. Qed.

Lemma after_add_cases (c : stock_config R) s date last price :
  (add_test c last price = true /\
   after_add c s date last price = added c s date price)
  \/ (add_test c last price = false /\ after_add c s date last price = s).
Proof. unfold after_add; destruct (add_test c last price); auto. Qed.

Lemma traded_between_bars (c : stock_config R) s date price :
  between_bars s -> invalid (Some price) = false ->
  between_bars (traded c s date price).
Proof.
  intros B V; unfold traded.
  destruct B as [[I [last [L Vl]]]|[I F]]; rewrite I.
  - rewrite L.
    destruct (after_add_cases c s date last price) as [[_ ->]|[_ ->]];
      match goal with |- between_bars (after_sell c ?s1 date price) =>
        destruct (after_sell_cases c s1 date price) as [[_ ->]|[_ ->]]
      end.
    + right; repeat split.
    + left; split; [ exact I | exists price; split; [ reflexivity | exact V ] ].
    + right; repeat split.
    + left; split; [ exact I | exists last; split; assumption ].
  - left; split; [ reflexivity | exists price; split; [ reflexivity | exact V ] ].
Qed.

Lemma stock_mark_between_bars (s : stock_state R) price :
  between_bars s -> between_bars (stock_mark s price).
Proof. intro B; exact B. Qed.

Lemma stock_init_between_bars : between_bars (@stock_init R _).
Proof. right; repeat split. Qed.

(** Every bar is one the loop skips, or a valid bar with a price. *)
Lemma bar_is_skipped_or_valid (bar : Date * option R) :
  invalid (snd bar) = true \/
  exists date price, bar = (date, Some price) /\ invalid (Some price) = false.
Proof.
  destruct bar as [date [price|]]; [ | left; reflexivity ].
  destruct (invalid (Some price)) eqn:V; [ left; exact V | right; eauto ].
Qed.

Lemma stock_bar_between_bars (c : stock_config R) s bar :
  between_bars s ->
  exists s', stock_bar c s bar = Ok s' /\ between_bars s'.
Proof.
  intro B; destruct (bar_is_skipped_or_valid bar) as [V|[date [price [-> V]]]].
  - destruct bar as [date price]; exists s; split;
      [ apply stock_bar_skip; exact V | exact B ].
  - eexists; split; [ apply stock_bar_traded; assumption | ].
    apply stock_mark_between_bars, traded_between_bars; assumption.
Qed.

(** The stock loop returns, on any series and for any configuration. *)
Lemma stock_loop_returns (c : stock_config R) prices :
  exists s, backtest_stock_loop c prices = Ok s /\ between_bars s.
Proof.
  unfold backtest_stock_loop.
  apply for_each_total with (P := between_bars);
    [ intros s x B; apply stock_bar_between_bars; exact B
    | apply stock_init_between_bars ].
Qed.

(** An invariant of the valid bars of a series is an invariant of the
    stock loop over it. *)
Lemma stock_loop_keeps (c : stock_config R) (P : stock_state R -> Prop)
      (prices : list (Date * option R)) :
  P stock_init ->
  (forall s date price,
      In (date, Some price) prices ->
      between_bars s -> P s -> invalid (Some price) = false ->
      P (stock_mark (traded c s date price) price)) ->
  forall s, backtest_stock_loop c prices = Ok s -> P s.
Proof.
  intros P0 Pstep s E.
  assert (G : between_bars s /\ P s); [ | tauto ].
  revert E; unfold backtest_stock_loop.
  apply for_each_invariant_in with (P := fun s => between_bars s /\ P s);
    [ | split; [ apply stock_init_between_bars | exact P0 ] ].
  intros s0 bar s1 Hb [B0 P1] E.
  destruct (bar_is_skipped_or_valid bar) as [V|[date [price [-> V]]]].
  - destruct bar as [date price]; rewrite stock_bar_skip in E by exact V.
    ok_inv E; auto.
  - rewrite stock_bar_traded in E by assumption; ok_inv E; split.
    + apply stock_mark_between_bars, traded_between_bars; assumption.
    + apply Pstep; assumption.
Qed.

(** *** The blocks of the futures loop *)

Lemma futures_add_after (c : futures_config R) s date last price :
  flast_buy_price s = Some last -> is_zero last = false ->
  futures_add c s date price = Ok (fafter_add c s date last price).
Proof.
  intros L Zl; unfold futures_add, fafter_add, fadd_test, computed_drawdown.
  rewrite L; cbn [number bind].
  rewrite truediv_returns by assumption; cbn [bind].
  destruct (leb _ _); reflexivity.
Qed.

(** The sell block raises when the size of the position, [lots *
    lot_value], is 0; it returns otherwise. *)
Lemma futures_sell_after (c : futures_config R) s date price :
  futures_sell c s date price
  = if (0 <? lots s)%Z && is_zero (fsize c (lots s))
    then Raise ZeroDivisionError
    else Ok (fafter_sell c s date price).
Proof.
  unfold futures_sell, fafter_sell, fsell_test, computed_target, fsize.
  destruct (0 <? lots s)%Z; cbn [andb]; [ | reflexivity ].
  unfold truediv at 1.
  destruct (is_zero (of_int (lots s) * lot_value c)); [ reflexivity | ].
  cbn [bind]; rewrite percent_returns; cbn [bind].
  destruct (leb _ _); reflexivity.
Qed.

Lemma fafter_sell_cases (c : futures_config R) s date price :
  (fsell_test c s price = true /\
   fafter_sell c s date price = fsold c s date price)
  \/ (fsell_test c s price = false /\ fafter_sell c s date price = s).
Proof. unfold fafter_sell; destruct (fsell_test c s price); auto. Qed.

Lemma fafter_add_cases (c : futures_config R) s date last price :
  (fadd_test c last price = true /\
   fafter_add c s date last price = fadded c s date price)
  \/ (fadd_test c last price = false /\ fafter_add c s date last price = s).
Proof. unfold fafter_add; destruct (fadd_test c last price); auto. Qed.

(** A valid bar, from a state between two bars, when it returns. *)
Lemma futures_bar_traded (c : futures_config R) s date price s' :
  fbetween_bars c s -> invalid (Some price) = false ->
  futures_bar c s (date, Some price) = Ok s' ->
  s' = futures_mark c (ftraded c s date price) price.
Proof.
  intros B V; unfold futures_bar, ftraded; rewrite V; cbn [number bind].
  destruct B as [[I [_ [last [L Vl]]]]|[I _]]; rewrite I; cbn [negb].
  - rewrite L, futures_add_after with (last := last)
      by (try apply valid_is_not_zero; assumption).
    cbn [bind]; rewrite futures_sell_after.
    destruct (_ && _); cbn [bind]; intro E; [ discriminate | ].
    ok_inv E; reflexivity.
  - cbn [bind]; intro E; ok_inv E; reflexivity.
Qed.

(** It returns when no position it can hold has a size of 0. *)
Lemma futures_bar_returns (c : futures_config R) s date price :
  (forall n, (initial_lots c <= n)%Z -> is_zero (fsize c n) = false) ->
  fbetween_bars c s -> invalid (Some price) = false ->
  futures_bar c s (date, Some price)
  = Ok (futures_mark c (ftraded c s date price) price).
Proof.
  intros Hz B V; unfold futures_bar, ftraded; rewrite V; cbn [number bind].
  destruct B as [[I [Ge [last [L Vl]]]]|[I _]]; rewrite I; cbn [negb];
    [ | reflexivity ].
  rewrite L, futures_add_after with (last := last)
      by (try apply valid_is_not_zero; assumption).
  cbn [bind]; rewrite futures_sell_after.
  replace (is_zero (fsize c (lots (fafter_add c s date last price))))
    with false; [ rewrite andb_false_r; reflexivity | ].
  symmetry; apply Hz.
  destruct (fafter_add_cases c s date last price) as [[_ ->]|[_ ->]];
    cbn [fadded lots]; lia.
Qed.

Lemma ftraded_between_bars (c : futures_config R) s date price :
  fbetween_bars c s -> invalid (Some price) = false ->
  fbetween_bars c (ftraded c s date price).
Proof.
  intros B V; unfold ftraded.
  destruct B as [[I [Ge [last [L Vl]]]]|[I F]]; rewrite I.
  - rewrite L.
    destruct (fafter_add_cases c s date last price) as [[_ ->]|[_ ->]];
      match goal with |- fbetween_bars c (fafter_sell c ?s1 date price) =>
        destruct (fafter_sell_cases c s1 date price) as [[_ ->]|[_ ->]]
      end.
    + right; repeat split.
    + left; split; [ exact I | split; [ cbn [fadded lots]; lia | ] ].
      exists price; split; [ reflexivity | exact V ].
    + right; repeat split.
    + left; split; [ exact I | split; [ exact Ge | ] ].
      exists last; split; assumption.
  - left; split; [ reflexivity | split; [ cbn [fopened lots]; lia | ] ].
    exists price; split; [ reflexivity | exact V ].
Qed.

Lemma futures_init_between_bars (c : futures_config R) :
  fbetween_bars c (@futures_init R _).
Proof. right; repeat split. Qed.

(** An invariant of the valid bars of a series is an invariant of the
    futures loop over it. *)
Lemma futures_loop_keeps (c : futures_config R)
      (P : futures_state R -> Prop) (prices : list (Date * option R)) :
  P futures_init ->
  (forall s date price,
      In (date, Some price) prices ->
      fbetween_bars c s -> P s -> invalid (Some price) = false ->
      P (futures_mark c (ftraded c s date price) price)) ->
  forall s, backtest_futures_loop c prices = Ok s -> P s.
Proof.
  intros P0 Pstep s E.
  assert (G : fbetween_bars c s /\ P s); [ | tauto ].
  revert E; unfold backtest_futures_loop.
  apply for_each_invariant_in with (P := fun s => fbetween_bars c s /\ P s);
    [ | split; [ apply futures_init_between_bars | exact P0 ] ].
  intros s0 bar s1 Hb [B0 P1] E.
  destruct (bar_is_skipped_or_valid bar) as [V|[date [price [-> V]]]].
  - destruct bar as [date price]; rewrite futures_bar_skip in E by exact V.
    ok_inv E; auto.
  - apply futures_bar_traded in E; [ subst s1 | assumption | assumption ].
    split.
    + apply ftraded_between_bars; assumption.
    + apply Pstep; assumption.
Qed.

(** The futures loop returns when no position it can hold has a size of
    0. *)
Lemma futures_loop_returns (c : futures_config R) prices :
  (forall n, (initial_lots c <= n)%Z -> is_zero (fsize c n) = false) ->
  exists s, backtest_futures_loop c prices = Ok s /\ fbetween_bars c s.
Proof.
  intro Hz; unfold backtest_futures_loop.
  apply for_each_total with (P := fbetween_bars c);
    [ | apply futures_init_between_bars ].
  intros s bar B.
  destruct (bar_is_skipped_or_valid bar) as [V|[date [price [-> V]]]].
  - destruct bar as [date price]; exists s; split;
      [ apply futures_bar_skip; exact V | exact B ].
  - eexists; split; [ apply futures_bar_returns; assumption | ].
    apply ftraded_between_bars; assumption.
Qed.

(** *** Skipped bars and the curve *)

Lemma skipped_bar_is_not_counted (prices : list (Date * option R)) :
  has_skipped_bar prices ->
  (length (valid_bars prices) < length prices)%nat.
Proof.
  intros [bar [Hb V]]; unfold valid_bars.
  induction prices as [|x prices IH]; [ destruct Hb | ].
  cbn [filter length].
  pose proof (filter_length_le (fun b => negb (invalid (snd b))) prices) as Le.
  destruct Hb as [->|Hb].
  - rewrite V; cbn [negb]; lia.
  - specialize (IH Hb). destruct (negb (invalid (snd x))); cbn [length]; lia.
Qed.

Lemma pd_Series_shorter {A} (values : list A) (index : list Date) :
  (length values < length index)%nat ->
  pd_Series values index = Raise ValueError.
Proof.
  intro L; unfold pd_Series.
  destruct (Nat.eqb_spec (length values) (length index)); [ lia | reflexivity ].
Qed.

Lemma loop_skips (S : Type) (body : S -> Date * option R -> result S)
      (before after : list (Date * option R)) bar (s : S) :
  (forall s0, body s0 bar = Ok s0) ->
  for_each body (before ++ bar :: after) s = for_each body (before ++ after) s.
Proof.
  intro Sk; rewrite !for_each_app.
  destruct (for_each body before s); cbn [bind for_each]; [ | reflexivity ].
  rewrite Sk; reflexivity.
Qed.

End AnyArithmetic.

(** ** The engines over exact rationals *)

Section Exact.

Local Open Scope Q_scope.

Lemma Qle_bool_false (x y : Q) : Qle_bool x y = false <-> y < x.
Proof.
  split; intro E.
  - apply Qnot_le_lt; intro L; apply Qle_bool_iff in L; congruence.
  - destruct (Qle_bool x y) eqn:L; [ | reflexivity ].
    apply Qle_bool_iff in L; apply Qlt_not_le in E; contradiction.
Qed.

Lemma ltb_Q (x y : Q) : ltb x y = true <-> x < y.
Proof.
  cbn [ltb Q_number]; rewrite negb_true_iff; apply Qle_bool_false.
Qed.

Lemma ltb_Q_false (x y : Q) : ltb x y = false <-> y <= x.
Proof.
  cbn [ltb Q_number]; rewrite negb_false_iff; apply Qle_bool_iff.
Qed.

Lemma leb_Q (x y : Q) : leb x y = true <-> x <= y.
Proof. apply Qle_bool_iff. Qed.

Lemma leb_Q_false (x y : Q) : leb x y = false <-> y < x.
Proof. apply Qle_bool_false. Qed.

Lemma truediv_ok (x y : Q) : ~ y == 0 -> truediv x y = Ok (x / y).
Proof.
  intro N; unfold truediv; cbn [is_zero quot Q_number].
  destruct (Qeq_bool y 0) eqn:E; [ | reflexivity ].
  apply Qeq_bool_iff in E; contradiction.
Qed.

Lemma truediv_zero (x y : Q) : y == 0 -> truediv x y = Raise ZeroDivisionError.
Proof.
  intro Z; unfold truediv; cbn [is_zero Q_number].
  apply Qeq_bool_iff in Z; rewrite Z; reflexivity.
Qed.

Lemma percent (x : Q) : truediv x (of_int 100) = Ok (x / 100).
Proof. reflexivity. Qed.

Lemma invalid_Some (p : Q) : invalid (Some p) = false <-> 0 < p.
Proof. unfold invalid; cbn [isna Q_number orb]; apply leb_Q_false. Qed.

Lemma invalid_Some_true (p : Q) : invalid (Some p) = true <-> p <= 0.
Proof. unfold invalid; cbn [isna Q_number orb]; apply leb_Q. Qed.

(** *** The three blocks of the stock loop body, case by case *)

Lemma stock_open_spec (c : stock_config Q) s date price :
  0 < price ->
  exists s', stock_open c s date price = Ok s' /\
    trades s' = trades s ++ [buy_init_row c date price] /\
    equity s' = equity s /\
    realized_pnl s' = realized_pnl s /\
    position_cost s' = initial_inr c /\
    position_shares s' = initial_inr c / price /\
    last_buy_price s' = Some price /\
    in_position s' = true.
Proof.
  intro P; unfold stock_open.
  rewrite truediv_ok by (intro Z; rewrite Z in P; discriminate).
  eexists; split; [ reflexivity | ]; cbn; repeat split.
Qed.

Lemma stock_add_spec (c : stock_config Q) s date price last :
  last_buy_price s = Some last -> 0 < last -> 0 < price ->
  exists s', stock_add c s date price = Ok s' /\
    ((drop_pct c <= drawdown last price /\
      trades s' = trades s ++ [buy_add_row c date price] /\
      equity s' = equity s /\
      realized_pnl s' = realized_pnl s /\
      position_cost s' = position_cost s + add_inr c /\
      position_shares s' = position_shares s + add_inr c / price /\
      last_buy_price s' = Some price /\
      in_position s' = in_position s)
     \/ (drawdown last price < drop_pct c /\ s' = s)).
Proof.
  intros L Pl P; unfold stock_add; rewrite L; cbn [number bind].
  rewrite truediv_ok by (intro Z; rewrite Z in Pl; discriminate).
  cbn [bind].
  match goal with |- context [if ?b then _ else _] => destruct b eqn:D end.
  - rewrite truediv_ok by (intro Z; rewrite Z in P; discriminate).
    eexists; split; [ reflexivity | left ].
    apply leb_Q in D; cbn; repeat split; assumption.
  - apply leb_Q_false in D. exists s; split; [ reflexivity | right; auto ].
Qed.

Lemma stock_sell_spec (c : stock_config Q) s date price :
  exists s', stock_sell c s date price = Ok s' /\
    ((0 < position_shares s /\
      target (avg_price s) (profit_pct c) <= price /\
      trades s' = trades s ++ [sell_all_row s date price] /\
      equity s' = equity s /\
      realized_pnl s' =
        realized_pnl s + (price * position_shares s - position_cost s) /\
      position_cost s' = 0 /\
      position_shares s' = 0 /\
      last_buy_price s' = None /\
      in_position s' = false)
     \/ ((position_shares s <= 0 \/
          price < target (avg_price s) (profit_pct c)) /\ s' = s)).
Proof.
  unfold stock_sell.
  destruct (ltb (of_int 0) (position_shares s)) eqn:G.
  - apply ltb_Q in G. change (of_int 0) with 0 in G.
    rewrite truediv_ok by (intro Z; rewrite Z in G; discriminate).
    cbn [bind]; rewrite percent; cbn [bind].
    match goal with |- context [if ?b then _ else _] => destruct b eqn:T end.
    + apply leb_Q in T.
      eexists; split; [ reflexivity | left ]; cbn; repeat split; assumption.
    + apply leb_Q_false in T. exists s; split; [ reflexivity | right; auto ].
  - apply ltb_Q_false in G. exists s; split; [ reflexivity | right; auto ].
Qed.

(** *** The blocks of the futures loop body *)

Lemma futures_open_spec (c : futures_config Q) s date price :
  exists s', futures_open c s date price = Ok s' /\
    ftrades s' = ftrades s ++ [fbuy_init_row c date price] /\
    fequity s' = fequity s /\
    frealized_pnl s' = frealized_pnl s /\
    total_cost s' = inject_Z (initial_lots c) * price * lot_value c /\
    lots s' = initial_lots c /\
    flast_buy_price s' = Some price /\
    fin_position s' = true.
Proof.
  unfold futures_open; eexists; split; [ reflexivity | ]; cbn; repeat split.
Qed.

Lemma futures_add_spec (c : futures_config Q) s date price last :
  flast_buy_price s = Some last -> 0 < last ->
  exists s', futures_add c s date price = Ok s' /\
    ((add_lot_every_drop c <= drawdown last price /\
      ftrades s' = ftrades s ++ [fbuy_add_row c s date price] /\
      fequity s' = fequity s /\
      frealized_pnl s' = frealized_pnl s /\
      total_cost s' = total_cost s + price * lot_value c /\
      lots s' = (lots s + 1)%Z /\
      flast_buy_price s' = Some price /\
      fin_position s' = fin_position s)
     \/ (drawdown last price < add_lot_every_drop c /\ s' = s)).
Proof.
  intros L Pl; unfold futures_add; rewrite L; cbn [number bind].
  rewrite truediv_ok by (intro Z; rewrite Z in Pl; discriminate).
  cbn [bind].
  match goal with |- context [if ?b then _ else _] => destruct b eqn:D end.
  - eexists; split; [ reflexivity | left ].
    apply leb_Q in D; cbn; repeat split; assumption.
  - apply leb_Q_false in D. exists s; split; [ reflexivity | right; auto ].
Qed.

Lemma futures_sell_spec (c : futures_config Q) s date price :
  ~ lot_value c == 0 ->
  exists s', futures_sell c s date price = Ok s' /\
    (((0 < lots s)%Z /\
      target (favg_price c s) (fprofit_pct c) <= price /\
      ftrades s' = ftrades s ++ [fsell_all_row c s date price] /\
      fequity s' = fequity s /\
      frealized_pnl s' =
        frealized_pnl s
        + (inject_Z (lots s) * price * lot_value c - total_cost s) /\
      total_cost s' = 0 /\
      lots s' = 0%Z /\
      flast_buy_price s' = None /\
      fin_position s' = false)
     \/ (((lots s <= 0)%Z \/
          price < target (favg_price c s) (fprofit_pct c)) /\ s' = s)).
Proof.
  intro V; unfold futures_sell.
  destruct (Z.ltb_spec 0 (lots s)) as [G|G].
  - rewrite truediv_ok.
    + cbn [bind]; rewrite percent; cbn [bind].
      match goal with |- context [if ?b then _ else _] => destruct b eqn:T end.
      * apply leb_Q in T.
        eexists; split; [ reflexivity | left ]; cbn; repeat split; assumption.
      * apply leb_Q_false in T.
        exists s; split; [ reflexivity | right; auto ].
    + cbn [of_int mul Q_number]; intro Z.
      apply Qmult_integral in Z; destruct Z as [Z|Z]; [ | contradiction ].
      assert (L : inject_Z 0 < inject_Z (lots s))
        by (rewrite <- Zlt_Qlt; assumption).
      rewrite Z in L; discriminate.
  - exists s; split; [ reflexivity | right; auto ].
Qed.

(** With a zero lot value the average of line 129 cannot be computed. *)
Lemma futures_sell_zero_lot_value (c : futures_config Q) s date price :
  lot_value c == 0 -> (0 < lots s)%Z ->
  futures_sell c s date price = Raise ZeroDivisionError.
Proof.
  intros V G; unfold futures_sell.
  apply Z.ltb_lt in G; rewrite G.
  rewrite truediv_zero; [ reflexivity | ].
  cbn [of_int mul Q_number]; rewrite V; ring.
Qed.

(** *** States from which a bar cannot raise *)

Lemma stock_bar_total (c : stock_config Q) s bar :
  stock_safe s -> exists s', stock_bar c s bar = Ok s' /\ stock_safe s'.
Proof.
  intro Hs; destruct bar as [date [price|]];
    [ | exists s; split; [ reflexivity | assumption ] ].
  destruct (invalid (Some price)) eqn:V.
  - exists s; split; [ apply stock_bar_skip; assumption | assumption ].
  - unfold stock_bar; rewrite V; cbn [number bind].
    apply invalid_Some in V.
    destruct (in_position s) eqn:I; cbn [negb].
    + destruct (Hs I) as [last [L Pl]].
      destruct (stock_add_spec c s date L Pl V) as [s1 [E1 H1]].
      rewrite E1; cbn [bind].
      destruct (stock_sell_spec c s1 date price) as [s2 [E2 H2]].
      rewrite E2; cbn [bind].
      eexists; split; [ reflexivity | ].
      unfold stock_safe; cbn.
      destruct H2 as [H2|[_ ->]].
      * intro C; decompose [and] H2; congruence.
      * destruct H1 as [H1|[_ ->]]; [ | exact Hs ].
        intros _; exists price; decompose [and] H1; auto.
    + destruct (stock_open_spec c s date V) as [s1 [E1 H1]].
      rewrite E1; cbn [bind].
      eexists; split; [ reflexivity | ].
      unfold stock_safe; cbn.
      intros _; exists price; decompose [and] H1; auto.
Qed.

Lemma stock_init_safe : stock_safe stock_init.
Proof. intro C; discriminate. Qed.

(** [backtest_stock]'s loop returns, whatever the configuration. *)
Lemma backtest_stock_loop_total (c : stock_config Q) prices :
  exists s, backtest_stock_loop c prices = Ok s /\ stock_safe s.
Proof.
  apply for_each_total with (P := stock_safe);
    [ apply stock_bar_total | apply stock_init_safe ].
Qed.

Lemma futures_bar_total (c : futures_config Q) s bar :
  ~ lot_value c == 0 ->
  futures_safe s -> exists s', futures_bar c s bar = Ok s' /\ futures_safe s'.
Proof.
  intros Hv Hs; destruct bar as [date [price|]];
    [ | exists s; split; [ reflexivity | assumption ] ].
  destruct (invalid (Some price)) eqn:V.
  - exists s; split; [ apply futures_bar_skip; assumption | assumption ].
  - unfold futures_bar; rewrite V; cbn [number bind].
    apply invalid_Some in V.
    destruct (fin_position s) eqn:I; cbn [negb].
    + destruct (Hs I) as [last [L Pl]].
      destruct (futures_add_spec c s date price L Pl) as [s1 [E1 H1]].
      rewrite E1; cbn [bind].
      destruct (futures_sell_spec c s1 date price Hv) as [s2 [E2 H2]].
      rewrite E2; cbn [bind].
      eexists; split; [ reflexivity | ].
      unfold futures_safe; cbn.
      destruct H2 as [H2|[_ ->]].
      * intro C; decompose [and] H2; congruence.
      * destruct H1 as [H1|[_ ->]]; [ | exact Hs ].
        intros _; exists price; decompose [and] H1; auto.
    + destruct (futures_open_spec c s date price) as [s1 [E1 H1]].
      rewrite E1; cbn [bind].
      eexists; split; [ reflexivity | ].
      unfold futures_safe; cbn.
      intros _; exists price; decompose [and] H1; auto.
Qed.

Lemma futures_init_safe : futures_safe futures_init.
Proof. intro C; discriminate. Qed.

Lemma backtest_futures_loop_total (c : futures_config Q) prices :
  ~ lot_value c == 0 ->
  exists s, backtest_futures_loop c prices = Ok s /\ futures_safe s.
Proof.
  intro Hv; apply for_each_total with (P := futures_safe);
    [ intros; apply futures_bar_total; assumption | apply futures_init_safe ].
Qed.

(** *** The ledger only grows *)

Lemma stock_bar_trades (c : stock_config Q) s bar s' :
  stock_safe s -> stock_bar c s bar = Ok s' ->
  exists new, trades s' = trades s ++ new.
Proof.
  intros Hs E; destruct bar as [date [price|]];
    [ | rewrite stock_bar_skip in E by reflexivity; ok_inv E;
        exists []; symmetry; apply app_nil_r ].
  destruct (invalid (Some price)) eqn:V.
  - rewrite stock_bar_skip in E by assumption; ok_inv E.
    exists []; symmetry; apply app_nil_r.
  - unfold stock_bar in E; rewrite V in E; cbn [number bind] in E.
    apply invalid_Some in V.
    destruct (in_position s) eqn:I; cbn [negb] in E.
    + destruct (Hs I) as [last [L Pl]].
      destruct (stock_add_spec c s date L Pl V) as [s1 [E1 H1]].
      rewrite E1 in E; cbn [bind] in E.
      destruct (stock_sell_spec c s1 date price) as [s2 [E2 H2]].
      rewrite E2 in E; cbn [bind] in E; ok_inv E; cbn [stock_mark trades].
      assert (A1 : exists new, trades s1 = trades s ++ new).
      { destruct H1 as [H1|[_ ->]];
          [ decompose [and] H1; eauto | exists []; symmetry; apply app_nil_r ]. }
      destruct A1 as [n1 A1].
      destruct H2 as [H2|[_ ->]]; [ | eauto ].
      decompose [and] H2.
      match goal with T : trades s2 = _ |- _ => rewrite T, A1 end.
      rewrite <- app_assoc; eauto.
    + destruct (stock_open_spec c s date V) as [s1 [E1 H1]].
      rewrite E1 in E; cbn [bind] in E; ok_inv E; cbn [stock_mark trades].
      decompose [and] H1; eauto.
Qed.

Lemma stock_loop_trades (c : stock_config Q) prices :
  forall s s', stock_safe s -> for_each (stock_bar c) prices s = Ok s' ->
  exists new, trades s' = trades s ++ new.
Proof.
  induction prices as [|bar prices IH]; cbn [for_each]; intros s s' Hs E.
  - ok_inv E; exists []; symmetry; apply app_nil_r.
  - bind_inv E.
    destruct (stock_bar_total c bar Hs) as [s1 [E1 S1]].
    rewrite E1 in Hm; ok_inv Hm.
    destruct (stock_bar_trades c bar Hs E1) as [n1 T1].
    destruct (IH _ _ S1 E) as [n2 T2].
    rewrite T2, T1, <- app_assoc; eauto.
Qed.

Lemma futures_bar_trades (c : futures_config Q) s bar s' :
  ~ lot_value c == 0 ->
  futures_safe s -> futures_bar c s bar = Ok s' ->
  exists new, ftrades s' = ftrades s ++ new.
Proof.
  intros Hv Hs E; destruct bar as [date [price|]];
    [ | rewrite futures_bar_skip in E by reflexivity; ok_inv E;
        exists []; symmetry; apply app_nil_r ].
  destruct (invalid (Some price)) eqn:V.
  - rewrite futures_bar_skip in E by assumption; ok_inv E.
    exists []; symmetry; apply app_nil_r.
  - unfold futures_bar in E; rewrite V in E; cbn [number bind] in E.
    destruct (fin_position s) eqn:I; cbn [negb] in E.
    + destruct (Hs I) as [last [L Pl]].
      destruct (futures_add_spec c s date price L Pl) as [s1 [E1 H1]].
      rewrite E1 in E; cbn [bind] in E.
      destruct (futures_sell_spec c s1 date price Hv) as [s2 [E2 H2]].
      rewrite E2 in E; cbn [bind] in E; ok_inv E; cbn [futures_mark ftrades].
      assert (A1 : exists new, ftrades s1 = ftrades s ++ new).
      { destruct H1 as [H1|[_ ->]];
          [ decompose [and] H1; eauto | exists []; symmetry; apply app_nil_r ]. }
      destruct A1 as [n1 A1].
      destruct H2 as [H2|[_ ->]]; [ | eauto ].
      decompose [and] H2.
      match goal with T : ftrades s2 = _ |- _ => rewrite T, A1 end.
      rewrite <- app_assoc; eauto.
    + destruct (futures_open_spec c s date price) as [s1 [E1 H1]].
      rewrite E1 in E; cbn [bind] in E; ok_inv E; cbn [futures_mark ftrades].
      decompose [and] H1; eauto.
Qed.

Lemma futures_loop_trades (c : futures_config Q) prices :
  ~ lot_value c == 0 ->
  forall s s', futures_safe s -> for_each (futures_bar c) prices s = Ok s' ->
  exists new, ftrades s' = ftrades s ++ new.
Proof.
  intro Hv.
  induction prices as [|bar prices IH]; cbn [for_each]; intros s s' Hs E.
  - ok_inv E; exists []; symmetry; apply app_nil_r.
  - bind_inv E.
    destruct (futures_bar_total c bar Hv Hs) as [s1 [E1 S1]].
    rewrite E1 in Hm; ok_inv Hm.
    destruct (futures_bar_trades c bar Hv Hs E1) as [n1 T1].
    destruct (IH _ _ S1 E) as [n2 T2].
    rewrite T2, T1, <- app_assoc; eauto.
Qed.

(** *** All bars valid: the curve has the length of the index *)

Lemma all_valid_bars (prices : list (Date * option Q)) :
  all_valid prices -> valid_bars prices = prices.
Proof.
  induction prices as [|bar prices IH]; intro A; [ reflexivity | ].
  unfold valid_bars; cbn [filter].
  rewrite (A bar (or_introl eq_refl)); cbn [negb].
  f_equal; apply IH; intros b Hb; apply A; right; assumption.
Qed.

Lemma pd_Series_same_length {A} (values : list A) (index : list Date) :
  length values = length index ->
  pd_Series values index = Ok (combine index values).
Proof.
  intro L; unfold pd_Series; rewrite L, Nat.eqb_refl; reflexivity.
Qed.

Lemma pd_Series_mismatch {A} (values : list A) (index : list Date) :
  length values <> length index ->
  pd_Series values index = Raise ValueError.
Proof.
  intro L; unfold pd_Series.
  destruct (Nat.eqb_spec (length values) (length index));
    [ contradiction | reflexivity ].
Qed.

End Exact.

(** The laws of the comparisons, for exact rationals. *)
#[export] Instance Q_lawful : Lawful Q.
Proof.
  split.
  - intros p V; apply invalid_Some in V.
    cbn [is_zero Q_number]; destruct (Qeq_bool p 0) eqn:E; [ | reflexivity ].
    apply Qeq_bool_eq in E; rewrite E in V; discriminate.
  - intros x G; apply ltb_Q in G.
    cbn [is_zero Q_number]; destruct (Qeq_bool x 0) eqn:E; [ | reflexivity ].
    apply Qeq_bool_eq in E; rewrite E in G; discriminate.
  - reflexivity.
  - intros x _; apply leb_Q, Qle_refl.
  - reflexivity.
  - intros x y Gx Gy; apply ltb_Q in Gx, Gy; apply ltb_Q.
    cbn [of_int add Q_number] in *; change (inject_Z 0) with 0 in *; lra.
Qed.

(** ** The laws of the comparisons, for binary64 numbers

    From the specification of the primitive operations ([FloatAxioms]):
    the comparisons are those of [SFcompare], and an addition rounds the
    exact sum of two finite numbers, which for two positive numbers is at
    least the smallest positive number of the format. *)

Module Binary64Laws.

Import SpecFloat FloatOps FloatAxioms Binary64.

#[local] Existing Instance float_number.

Local Open Scope Z_scope.

(** Positive numbers: finite and positive, or the positive infinity. *)
Definition positive_float (f : spec_float) : Prop :=
  match f with
  | S754_infinity false | S754_finite false _ _ => True
  | _ => False
  end.

Lemma positive_float_ltb (f : spec_float) :
  SFltb (S754_zero false) f = true <-> positive_float f.
Proof.
  destruct f as [s|s| |s m e]; cbn; try (destruct s; cbn);
    intuition congruence.
Qed.

Lemma is_nan_false (x : PrimFloat.float) :
  PrimFloat.is_nan x = false -> Prim2SF x <> S754_nan.
Proof.
  intro N; unfold Prim2SF; rewrite N.
  destruct (PrimFloat.is_zero x); [ discriminate | ].
  destruct (PrimFloat.is_infinity x); [ discriminate | ].
  destruct (FloatOps.Z.frexp x) as [r e].
  destruct (shr_fexp _ _ _ _ _) as [m e'].
  destruct (shr_m m); discriminate.
Qed.

Lemma SFleb_refl (f : spec_float) : f <> S754_nan -> SFleb f f = true.
Proof.
  intro N; destruct f as [s|s| |s m e]; try reflexivity;
    [ destruct s; reflexivity | congruence | ].
  unfold SFleb, SFcompare.
  rewrite Z.compare_refl, Pos.compare_cont_refl; destruct s; reflexivity.
Qed.

Lemma not_above_zero_or_not_zero (f : spec_float) :
  SFleb f (S754_zero false) = false -> SFeqb f (S754_zero false) = false.
Proof.
  destruct f as [s|s| |s m e]; try reflexivity; try discriminate;
    destruct s; reflexivity.
Qed.

Lemma above_zero_is_not_zero (f : spec_float) :
  SFltb (S754_zero false) f = true -> SFeqb f (S754_zero false) = false.
Proof.
  destruct f as [s|s| |s m e]; try reflexivity; try discriminate;
    destruct s; reflexivity.
Qed.

(** *** The sum of two positive numbers *)

Lemma digits2_size (m : positive) : digits2_pos m = Pos.size m.
Proof. induction m; cbn; congruence. Qed.

Lemma shr_1_m (r : shr_record) :
  0 <= shr_m r -> shr_m (shr_1 r) = Z.div2 (shr_m r).
Proof.
  destruct r as [m r s]; cbn [shr_m]; intro P.
  destruct m as [|p|p]; [ reflexivity | | lia ].
  destruct p; reflexivity.
Qed.

Lemma iter_shr_m (p : positive) : forall r, 0 <= shr_m r ->
  shr_m (iter_pos shr_1 p r) = Z.shiftr (shr_m r) (Zpos p).
Proof.
  induction p as [p IH|p IH|]; intros r P; cbn [iter_pos].
  - assert (P1 : 0 <= shr_m (shr_1 r))
      by (rewrite shr_1_m by assumption; apply Z.div2_nonneg; assumption).
    assert (P2 : 0 <= shr_m (iter_pos shr_1 p (shr_1 r)))
      by (rewrite IH by assumption; apply Z.shiftr_nonneg; assumption).
    rewrite IH, IH, shr_1_m by assumption.
    rewrite Z.div2_spec, !Z.shiftr_shiftr by lia.
    f_equal; lia.
  - assert (P2 : 0 <= shr_m (iter_pos shr_1 p r))
      by (rewrite IH by assumption; apply Z.shiftr_nonneg; assumption).
    rewrite IH, IH by assumption.
    rewrite !Z.shiftr_shiftr by lia; f_equal; lia.
  - rewrite shr_1_m by assumption; apply Z.div2_spec.
Qed.

(** Shifting right by fewer bits than the number has leaves a bit. *)
Lemma size_shiftr (m : positive) (n : Z) :
  n < Zpos (Pos.size m) -> 0 < Z.shiftr (Zpos m) n.
Proof.
  intro L; destruct (Z.le_gt_cases n 0) as [N|N].
  - destruct n as [|p|p]; [ reflexivity | lia | ].
    rewrite <- Z.shiftl_opp_r; cbn [Z.opp].
    rewrite Z.shiftl_mul_pow2 by lia.
    assert (0 < 2 ^ Zpos p) by (apply Z.pow_pos_nonneg; lia); nia.
  - rewrite Z.shiftr_div_pow2 by lia.
    apply Z.div_str_pos; split; [ apply Z.pow_pos_nonneg; lia | ].
    pose proof (Pos.size_le m) as S.
    assert (B : 2 ^ Zpos (Pos.size m) <= 2 * Zpos m).
    { rewrite <- Pos2Z.inj_pow; change (2 * Zpos m) with (Zpos (m~0));
        exact S. }
    assert (E : Zpos (Pos.size m) = Z.succ (Zpos (Pos.size m) - 1)) by lia.
    rewrite E, Z.pow_succ_r in B by lia.
    assert (2 ^ n <= 2 ^ (Zpos (Pos.size m) - 1))
      by (apply Z.pow_le_mono_r; lia).
    lia.
Qed.

Lemma shr_record_of_loc_m (m : Z) (l : location) :
  shr_m (shr_record_of_loc m l) = m.
Proof. destruct l as [|[]]; reflexivity. Qed.

Lemma fexp_above_emin (x : Z) : SpecFloat.emin prec emax <= fexp prec emax x.
Proof. unfold fexp; lia. Qed.

(** The rounding shift of a positive mantissa whose exponent is in range
    leaves a positive mantissa. *)
Lemma shr_fexp_pos (m : positive) (e : Z) (l : location) :
  SpecFloat.emin prec emax <= e ->
  0 < shr_m (fst (shr_fexp prec emax (Zpos m) e l)) /\
  SpecFloat.emin prec emax <= snd (shr_fexp prec emax (Zpos m) e l).
Proof.
  intro E; unfold shr_fexp, shr.
  set (n := fexp prec emax (Zdigits2 (Zpos m) + e) - e).
  assert (L : n < Zpos (Pos.size m)).
  { unfold n, fexp; cbn [Zdigits2]; rewrite digits2_size.
    unfold prec in *; unfold SpecFloat.emin in *; lia. }
  destruct n as [|p|p] eqn:N; cbn [fst snd]; rewrite ?shr_record_of_loc_m.
  - split; lia.
  - rewrite iter_shr_m by (rewrite shr_record_of_loc_m; lia).
    rewrite shr_record_of_loc_m; split; [ apply size_shiftr; assumption | lia ].
  - split; lia.
Qed.

Lemma round_nearest_even_pos (m : Z) (l : location) :
  0 < m -> 0 < round_nearest_even m l.
Proof.
  intro P; destruct l as [|[]]; cbn; try lia; destruct (Z.even m); lia.
Qed.

Lemma binary_round_aux_positive (m : positive) (e : Z) (l : location) :
  SpecFloat.emin prec emax <= e ->
  positive_float (binary_round_aux prec emax false (Zpos m) e l).
Proof.
  intro E; unfold binary_round_aux.
  pose proof (@shr_fexp_pos m e l E) as [P1 E1].
  destruct (shr_fexp prec emax (Zpos m) e l) as [r1 e1];
    cbn [fst snd] in P1, E1.
  pose proof (@round_nearest_even_pos _ (loc_of_shr_record r1) P1) as P2.
  destruct (round_nearest_even (shr_m r1) (loc_of_shr_record r1))
    as [|m2|m2]; try lia.
  pose proof (@shr_fexp_pos m2 e1 loc_Exact E1) as [P3 _].
  destruct (shr_fexp prec emax (Zpos m2) e1 loc_Exact) as [r3 e3];
    cbn [fst] in P3.
  destruct (shr_m r3); try lia.
  destruct (e3 <=? emax - prec); exact I.
Qed.

Lemma binary_round_positive (m : positive) (e : Z) :
  SpecFloat.emin prec emax <= e ->
  positive_float (binary_round prec emax false m e).
Proof.
  intro E; unfold binary_round.
  destruct (shl_align m e _) as [mz ez] eqn:A.
  apply binary_round_aux_positive.
  unfold shl_align in A.
  destruct (fexp prec emax (Zpos (digits2_pos m) + e) - e) eqn:D;
    injection A as <- <-; try assumption.
  apply fexp_above_emin.
Qed.

Lemma valid_exponent (s : bool) (m : positive) (e : Z) :
  valid_binary (S754_finite s m e) = true -> SpecFloat.emin prec emax <= e.
Proof.
  unfold SpecFloat.valid_binary, bounded, canonical_mantissa.
  intro V; apply andb_prop in V; destruct V as [V _].
  apply Z.eqb_eq in V; rewrite <- V; apply fexp_above_emin.
Qed.

Lemma SFadd_positive (x y : spec_float) :
  valid_binary x = true -> valid_binary y = true ->
  positive_float x -> positive_float y -> positive_float (SF64add x y).
Proof.
  intros Vx Vy Px Py.
  destruct x as [sx|sx| |sx mx ex]; try contradiction;
    destruct sx; try contradiction;
    destruct y as [sy|sy| |sy my ey]; try contradiction;
    destruct sy; try contradiction; try exact I.
  unfold SF64add, SFadd; cbn [cond_Zopp].
  apply valid_exponent in Vx, Vy.
  change (Zpos ?a + Zpos ?b) with (Zpos (a + b)); cbn [binary_normalize].
  apply binary_round_positive; lia.
Qed.

(** *** The instance *)

#[export] Instance float_lawful : Lawful PrimFloat.float.
Proof.
  split; cbn [is_zero isna leb ltb add of_int float_number invalid].
  - intros p V; apply orb_false_iff in V; destruct V as [_ V].
    change (float_of_Z 0) with PrimFloat.zero in V.
    rewrite leb_spec in V; rewrite eqb_spec.
    apply not_above_zero_or_not_zero; exact V.
  - intros x G; change (float_of_Z 0) with PrimFloat.zero in G.
    rewrite ltb_spec in G; rewrite eqb_spec.
    apply above_zero_is_not_zero; exact G.
  - vm_compute; reflexivity.
  - intros x N; rewrite leb_spec; apply SFleb_refl, is_nan_false, N.
  - vm_compute; reflexivity.
  - intros x y; change (float_of_Z 0) with PrimFloat.zero.
    rewrite !ltb_spec, add_spec.
    change (Prim2SF PrimFloat.zero) with (S754_zero false).
    rewrite !positive_float_ltb.
    apply SFadd_positive; apply Prim2SF_valid.
Qed.

End Binary64Laws.

(** * The claims of the specification *)

Section Claims.

Local Open Scope Q_scope.

(** ** Skipped bars *)

(** The equity list has one value per valid bar. *)
Lemma equity_per_valid_bar (c : stock_config Q) (fc : futures_config Q) prices :
  (forall s, backtest_stock_loop c prices = Ok s ->
             length (equity s) = length (valid_bars prices)) /\
  (forall s, backtest_futures_loop fc prices = Ok s ->
             length (fequity s) = length (valid_bars prices)).
Proof.
  split; intros s E.
  - apply (stock_loop_equity_length c prices stock_init) in E; exact E.
  - apply (futures_loop_equity_length fc prices futures_init) in E; exact E.
Qed.

(** ** Series without a valid bar *)

Lemma all_invalid_loop (c : stock_config Q) prices :
  (forall bar, In bar prices -> invalid (snd bar) = true) ->
  backtest_stock_loop c prices = Ok stock_init.
Proof.
  unfold backtest_stock_loop; generalize (@stock_init Q _).
  induction prices as [|[date price] prices IH]; intros s A; [ reflexivity | ].
  cbn [for_each].
  rewrite stock_bar_skip by (apply (A (date, price)); left; reflexivity).
  cbn [bind]; apply IH; intros b Hb; apply A; right; assumption.
Qed.

(** Where the loop appends nothing, the curve of line 85 can only be
    built over an empty index. *)
Lemma all_invalid_run (c : stock_config Q) prices :
  (forall bar, In bar prices -> invalid (snd bar) = true) ->
  backtest_stock c prices
  = match prices with [] => Ok ([], []) | _ :: _ => Raise ValueError end.
Proof.
  intro A; unfold backtest_stock; rewrite all_invalid_loop by assumption.
  destruct prices; reflexivity.
Qed.

(** C2: an empty series returns an empty ledger and an empty curve; on a
    series of one bar with price 0 the loop builds the empty ledger and the
    empty equity list as well, but both engines then raise [ValueError]
    while building the curve over the index of the series. *)
Theorem invalid_only_series_raises :
  backtest_stock scenario_config [] = Ok ([], []) /\
  backtest_futures app_futures_config [] = Ok ([], []) /\
  (exists s, backtest_stock_loop scenario_config [(1%Z, Some 0)] = Ok s /\
             trades s = [] /\ equity s = []) /\
  backtest_stock scenario_config [(1%Z, Some 0)] = Raise ValueError /\
  backtest_futures app_futures_config [(1%Z, Some 0)] = Raise ValueError /\
  backtest_stock scenario_config [(1%Z, None)] = Raise ValueError.
Proof.
  repeat split; try reflexivity.
  eexists; split; [ reflexivity | split; reflexivity ].
Qed.

(** ** The configuration is not checked *)

(** C3, as the specification states it, fails: a negative initial amount,
    a zero add amount, and percentages of 150 and -5 are run with, as they
    are. *)
Lemma invalid_configuration_is_run :
  exists ledger curve,
    backtest_stock
      {| initial_inr := -10000; add_inr := 0; drop_pct := 150;
         profit_pct := -5 |} [(1%Z, Some 100)] = Ok (ledger, curve) /\
    map (@t_action Q) ledger = [BUY_INIT] /\
    map (@t_cost Q) ledger = [Some (-10000)] /\
    length curve = 1%nat.
Proof. do 2 eexists; repeat split; reflexivity. Qed.

Lemma first_bar_opens (c : stock_config Q) date price :
  0 < price ->
  exists s, stock_bar c stock_init (date, Some price) = Ok s /\
            stock_safe s /\ trades s = [buy_init_row c date price].
Proof.
  intro P; unfold stock_bar.
  rewrite (proj2 (invalid_Some price) P); cbn [number bind in_position
                                                stock_init negb].
  destruct (stock_open_spec c stock_init date P) as [s1 [E1 H1]].
  rewrite E1; cbn [bind]; eexists; split; [ reflexivity | ].
  decompose [and] H1; split.
  - intros _; exists price; auto.
  - cbn [stock_mark trades]; assumption.
Qed.

Lemma futures_first_bar_opens (c : futures_config Q) date price :
  0 < price ->
  exists s, futures_bar c futures_init (date, Some price) = Ok s /\
            futures_safe s /\ ftrades s = [fbuy_init_row c date price].
Proof.
  intro P; unfold futures_bar.
  rewrite (proj2 (invalid_Some price) P); cbn [number bind fin_position
                                                futures_init negb].
  destruct (futures_open_spec c futures_init date price) as [s1 [E1 H1]].
  rewrite E1; cbn [bind]; eexists; split; [ reflexivity | ].
  decompose [and] H1; split.
  - intros _; exists price; auto.
  - cbn [futures_mark ftrades]; assumption.
Qed.

(** C3 (amended): the engines do not validate the configuration.  Whatever
    the initial amount, the add amount and the two percentages are (zero,
    negative or above 100 included), a run over valid bars is not rejected:
    it returns a ledger and a curve with one point per bar, and the first
    bar opens the position with the amounts as they were given (cost
    [initial_inr] for [initial_inr / price] shares, [initial_lots] lots),
    unclamped.  In the futures engine this holds for every lot value other
    than 0. *)
Theorem configuration_is_not_checked
        (c : stock_config Q) (fc : futures_config Q)
        (prices : list (Date * option Q)) :
  all_valid prices ->
  (exists ledger curve,
      backtest_stock c prices = Ok (ledger, curve) /\
      length curve = length prices /\
      forall date price rest, prices = (date, Some price) :: rest ->
        hd_error ledger = Some (buy_init_row c date price)) /\
  (~ lot_value fc == 0 ->
   exists ledger curve,
      backtest_futures fc prices = Ok (ledger, curve) /\
      length curve = length prices /\
      forall date price rest, prices = (date, Some price) :: rest ->
        hd_error ledger = Some (fbuy_init_row fc date price)).
Proof.
  intro A; split; [ | intro Hv ].
  - destruct (backtest_stock_loop_total c prices) as [s [E _]].
    assert (L : length (equity s) = length (map fst prices)).
    { rewrite length_map.
      rewrite (proj1 (equity_per_valid_bar c fc prices) s E).
      rewrite all_valid_bars by assumption; reflexivity. }
    unfold backtest_stock; rewrite E; cbn [bind].
    rewrite pd_Series_same_length by assumption; cbn [bind].
    do 2 eexists; split; [ reflexivity | split ].
    + rewrite length_combine, <- L, Nat.min_id, L, length_map; reflexivity.
    + intros date price rest ->.
      assert (P : 0 < price)
        by (apply invalid_Some; apply (A (date, Some price)); left; reflexivity).
      destruct (first_bar_opens c date P) as [s1 [E1 [S1 T1]]].
      unfold backtest_stock_loop in E; cbn [for_each] in E.
      rewrite E1 in E; cbn [bind] in E.
      destruct (stock_loop_trades c rest S1 E) as [new T].
      rewrite T, T1; reflexivity.
  - destruct (backtest_futures_loop_total fc prices Hv) as [s [E _]].
    assert (L : length (fequity s) = length (map fst prices)).
    { rewrite length_map.
      rewrite (proj2 (equity_per_valid_bar c fc prices) s E).
      rewrite all_valid_bars by assumption; reflexivity. }
    unfold backtest_futures; rewrite E; cbn [bind].
    rewrite pd_Series_same_length by assumption; cbn [bind].
    do 2 eexists; split; [ reflexivity | split ].
    + rewrite length_combine, <- L, Nat.min_id, L, length_map; reflexivity.
    + intros date price rest ->.
      assert (P : 0 < price)
        by (apply invalid_Some; apply (A (date, Some price)); left; reflexivity).
      destruct (futures_first_bar_opens fc date P) as [s1 [E1 [S1 T1]]].
      unfold backtest_futures_loop in E; cbn [for_each] in E.
      rewrite E1 in E; cbn [bind] in E.
      destruct (futures_loop_trades fc rest Hv S1 E) as [new T].
      rewrite T, T1; reflexivity.
Qed.

Lemma configuration_is_not_checked_witness :
  exists ledger curve,
    backtest_stock
      {| initial_inr := -10000; add_inr := 0; drop_pct := 150;
         profit_pct := -5 |} [(1%Z, Some 100); (2%Z, Some 50)]
    = Ok (ledger, curve) /\
    length curve = 2%nat.
Proof.
  assert (A : all_valid [(1%Z, Some 100); (2%Z, Some 50)]).
  { intros bar [<-|[<-|[]]]; reflexivity. }
  destruct (configuration_is_not_checked
              {| initial_inr := -10000; add_inr := 0; drop_pct := 150;
                 profit_pct := -5 |} app_futures_config A)
    as [[ledger [curve [E [L _]]]] _].
  exists ledger, curve; split; assumption.
Defined.

(** ** Order of the two triggers within a bar *)

(** What a bar appends to the stock ledger while a position is open. *)
Lemma stock_bar_emits (c : stock_config Q) s date price last s' :
  in_position s = true -> last_buy_price s = Some last ->
  0 < last -> 0 < price ->
  stock_bar c s (date, Some price) = Ok s' ->
  exists new, trades s' = trades s ++ new /\
    let cost1 := position_cost s + add_inr c in
    let shares1 := position_shares s + add_inr c / price in
    (drop_pct c <= drawdown last price ->
       (0 < shares1 /\ target (cost1 / shares1) (profit_pct c) <= price ->
        map (@t_action Q) new = [BUY_ADD; SELL_ALL]) /\
       (shares1 <= 0 \/ price < target (cost1 / shares1) (profit_pct c) ->
        map (@t_action Q) new = [BUY_ADD])) /\
    (drawdown last price < drop_pct c ->
       (0 < position_shares s /\
        target (position_cost s / position_shares s) (profit_pct c) <= price ->
        map (@t_action Q) new = [SELL_ALL]) /\
       (position_shares s <= 0 \/
        price < target (position_cost s / position_shares s) (profit_pct c) ->
        map (@t_action Q) new = [])).
Proof.
  intros I L Pl P E.
  unfold stock_bar in E; rewrite (proj2 (invalid_Some price) P) in E.
  cbn [number bind] in E; rewrite I in E; cbn [negb] in E.
  destruct (stock_add_spec c s date L Pl P) as [s1 [E1 H1]].
  rewrite E1 in E; cbn [bind] in E.
  destruct (stock_sell_spec c s1 date price) as [s2 [E2 H2]].
  rewrite E2 in E; cbn [bind] in E; ok_inv E; cbn [stock_mark trades].
  unfold avg_price in H2.
  destruct H1 as [H1|[D1 ->]].
  - destruct H1 as [D1 [T1 [_ [_ [C1 [S1 _]]]]]].
    rewrite C1, S1 in H2.
    destruct H2 as [H2|[H2 ->]].
    + destruct H2 as [G2 [T2 [R2 _]]].
      exists [buy_add_row c date price; sell_all_row s1 date price]; split.
      * rewrite R2, T1, <- app_assoc; reflexivity.
      * cbn zeta; split; [ intros _; split | intro D ];
          [ reflexivity | intros [N|N]; exfalso; lra | exfalso; lra ].
    + exists [buy_add_row c date price]; split; [ assumption | ].
      cbn zeta; split; [ intros _; split | intro D ];
          [ intros [N1 N2]; exfalso; destruct H2; lra | reflexivity
          | exfalso; lra ].
  - destruct H2 as [H2|[H2 ->]].
    + destruct H2 as [G2 [T2 [R2 _]]].
      exists [sell_all_row s date price]; split; [ assumption | ].
      cbn zeta; split; [ intro D; exfalso; lra | intros _; split ];
        [ reflexivity | intros [N|N]; exfalso; lra ].
    + exists []; split; [ symmetry; apply app_nil_r | ].
      cbn zeta; split; [ intro D; exfalso; lra | intros _; split ];
        [ intros [N1 N2]; exfalso; destruct H2; lra | reflexivity ].
Qed.

(** What a bar appends to the futures ledger while a position is open. *)
Lemma futures_bar_emits (c : futures_config Q) s date price last s' :
  ~ lot_value c == 0 ->
  fin_position s = true -> flast_buy_price s = Some last ->
  0 < last -> 0 < price ->
  futures_bar c s (date, Some price) = Ok s' ->
  exists new, ftrades s' = ftrades s ++ new /\
    let cost1 := total_cost s + price * lot_value c in
    let lots1 := (lots s + 1)%Z in
    (add_lot_every_drop c <= drawdown last price ->
       ((0 < lots1)%Z /\
        target (cost1 / (inject_Z lots1 * lot_value c)) (fprofit_pct c)
        <= price ->
        map (@f_action Q) new = [BUY_ADD; SELL_ALL]) /\
       ((lots1 <= 0)%Z \/
        price
        < target (cost1 / (inject_Z lots1 * lot_value c)) (fprofit_pct c) ->
        map (@f_action Q) new = [BUY_ADD])) /\
    (drawdown last price < add_lot_every_drop c ->
       ((0 < lots s)%Z /\
        target (total_cost s / (inject_Z (lots s) * lot_value c))
               (fprofit_pct c) <= price ->
        map (@f_action Q) new = [SELL_ALL]) /\
       ((lots s <= 0)%Z \/
        price < target (total_cost s / (inject_Z (lots s) * lot_value c))
                       (fprofit_pct c) ->
        map (@f_action Q) new = [])).
Proof.
  intros Hv I L Pl P E.
  unfold futures_bar in E; rewrite (proj2 (invalid_Some price) P) in E.
  cbn [number bind] in E; rewrite I in E; cbn [negb] in E.
  destruct (futures_add_spec c s date price L Pl) as [s1 [E1 H1]].
  rewrite E1 in E; cbn [bind] in E.
  destruct (futures_sell_spec c s1 date price Hv) as [s2 [E2 H2]].
  rewrite E2 in E; cbn [bind] in E; ok_inv E; cbn [futures_mark ftrades].
  unfold favg_price in H2.
  destruct H1 as [H1|[D1 ->]].
  - destruct H1 as [D1 [T1 [_ [_ [C1 [S1 _]]]]]].
    rewrite C1, S1 in H2.
    destruct H2 as [H2|[H2 ->]].
    + destruct H2 as [G2 [T2 [R2 _]]].
      exists [fbuy_add_row c s date price; fsell_all_row c s1 date price]; split.
      * rewrite R2, T1, <- app_assoc; reflexivity.
      * cbn zeta; split; [ intros _; split | intro D ];
          [ reflexivity | intros [N|N]; exfalso; [ lia | lra ]
          | exfalso; lra ].
    + exists [fbuy_add_row c s date price]; split; [ assumption | ].
      cbn zeta; split; [ intros _; split | intro D ];
          [ intros [N1 N2]; exfalso; destruct H2; [ lia | lra ] | reflexivity
          | exfalso; lra ].
  - destruct H2 as [H2|[H2 ->]].
    + destruct H2 as [G2 [T2 [R2 _]]].
      exists [fsell_all_row c s date price]; split; [ assumption | ].
      cbn zeta; split; [ intro D; exfalso; lra | intros _; split ];
        [ reflexivity | intros [N|N]; exfalso; [ lia | lra ] ].
    + exists []; split; [ symmetry; apply app_nil_r | ].
      cbn zeta; split; [ intro D; exfalso; lra | intros _; split ];
        [ intros [N1 N2]; exfalso; destruct H2; [ lia | lra ]
        | reflexivity ].
Qed.

Lemma stock_bar_actions (c : stock_config Q) s date price last s' :
  in_position s = true -> last_buy_price s = Some last ->
  0 < last -> 0 < price ->
  stock_bar c s (date, Some price) = Ok s' ->
  exists new, trades s' = trades s ++ new /\
    let added := add_hit (drop_pct c) last price in
    let cost1 :=
      if added then position_cost s + add_inr c else position_cost s in
    let shares1 :=
      if added then position_shares s + add_inr c / price
      else position_shares s in
    map (@t_action Q) new
    = bar_actions added
        (sell_hit (negb (Qle_bool shares1 0)) (cost1 / shares1)
                  (profit_pct c) price).
Proof.
  intros I L Pl P E.
  destruct (stock_bar_emits c s date I L Pl P E) as [new [T [HA HN]]].
  exists new; split; [ assumption | ].
  cbn zeta in HA, HN |- *; unfold add_hit, sell_hit.
  destruct (Qle_bool (drop_pct c) (drawdown last price)) eqn:D.
  + apply Qle_bool_iff in D; destruct (HA D) as [H1 H2].
    destruct (Qle_bool (position_shares s + add_inr c / price) 0) eqn:G;
      cbn [negb andb].
    * apply Qle_bool_iff in G; apply H2; left; assumption.
    * apply Qle_bool_false in G.
      match goal with |- context [Qle_bool ?a ?b] =>
        destruct (Qle_bool a b) eqn:T1 end.
      -- apply Qle_bool_iff in T1; apply H1; split; assumption.
      -- apply Qle_bool_false in T1; apply H2; right; assumption.
  + apply Qle_bool_false in D; destruct (HN D) as [H1 H2].
    destruct (Qle_bool (position_shares s) 0) eqn:G; cbn [negb andb].
    * apply Qle_bool_iff in G; apply H2; left; assumption.
    * apply Qle_bool_false in G.
      match goal with |- context [Qle_bool ?a ?b] =>
        destruct (Qle_bool a b) eqn:T1 end.
      -- apply Qle_bool_iff in T1; apply H1; split; assumption.
      -- apply Qle_bool_false in T1; apply H2; right; assumption.
Qed.

Lemma futures_bar_actions (c : futures_config Q) s date price last s' :
  ~ lot_value c == 0 ->
  fin_position s = true -> flast_buy_price s = Some last ->
  0 < last -> 0 < price ->
  futures_bar c s (date, Some price) = Ok s' ->
  exists new, ftrades s' = ftrades s ++ new /\
    let added := add_hit (add_lot_every_drop c) last price in
    let cost1 :=
      if added then total_cost s + price * lot_value c
      else total_cost s in
    let lots1 := if added then (lots s + 1)%Z else lots s in
    map (@f_action Q) new
    = bar_actions added
        (sell_hit (0 <? lots1)%Z (cost1 / (inject_Z lots1 * lot_value c))
                  (fprofit_pct c) price).
Proof.
  intros Hv I L Pl P E.
  destruct (futures_bar_emits c s date Hv I L Pl P E) as [new [T [HA HN]]].
  exists new; split; [ assumption | ].
  cbn zeta in HA, HN |- *; unfold add_hit, sell_hit.
  destruct (Qle_bool (add_lot_every_drop c) (drawdown last price)) eqn:D.
  + apply Qle_bool_iff in D; destruct (HA D) as [H1 H2].
    destruct (Z.ltb_spec 0 (lots s + 1)) as [G|G]; cbn [andb].
    * match goal with |- context [Qle_bool ?a ?b] =>
        destruct (Qle_bool a b) eqn:T1 end.
      -- apply Qle_bool_iff in T1; apply H1; split; assumption.
      -- apply Qle_bool_false in T1; apply H2; right; assumption.
    * apply H2; left; assumption.
  + apply Qle_bool_false in D; destruct (HN D) as [H1 H2].
    destruct (Z.ltb_spec 0 (lots s)) as [G|G]; cbn [andb].
    * match goal with |- context [Qle_bool ?a ?b] =>
        destruct (Qle_bool a b) eqn:T1 end.
      -- apply Qle_bool_iff in T1; apply H1; split; assumption.
      -- apply Qle_bool_false in T1; apply H2; right; assumption.
    * apply H2; left; assumption.
Qed.

(** C4: on a valid bar with a position open, the add-on-dip test comes
    first and the sell test is made on the average entry price of the
    position as it is after the add of the same bar: cost basis over size,
    both including the add.  The bar appends, in this order, a BUY_ADD if
    the first test holds and a SELL_ALL if the second does; both can happen
    in one bar, as in the run of the last part, and a SELL_ALL never
    precedes a BUY_ADD of its bar.  The same holds of the futures engine,
    with lots for shares. *)
Theorem add_is_evaluated_before_sell :
  (forall (c : stock_config Q) s date price last s',
      in_position s = true -> last_buy_price s = Some last ->
      0 < last -> 0 < price ->
      stock_bar c s (date, Some price) = Ok s' ->
      exists new, trades s' = trades s ++ new /\
        let added := add_hit (drop_pct c) last price in
        let cost1 :=
          if added then position_cost s + add_inr c else position_cost s in
        let shares1 :=
          if added then position_shares s + add_inr c / price
          else position_shares s in
        map (@t_action Q) new
        = bar_actions added
            (sell_hit (negb (Qle_bool shares1 0)) (cost1 / shares1)
                      (profit_pct c) price)) /\
  (forall (c : futures_config Q) s date price last s',
      ~ lot_value c == 0 ->
      fin_position s = true -> flast_buy_price s = Some last ->
      0 < last -> 0 < price ->
      futures_bar c s (date, Some price) = Ok s' ->
      exists new, ftrades s' = ftrades s ++ new /\
        let added := add_hit (add_lot_every_drop c) last price in
        let cost1 :=
          if added then total_cost s + price * lot_value c
          else total_cost s in
        let lots1 := if added then (lots s + 1)%Z else lots s in
        map (@f_action Q) new
        = bar_actions added
            (sell_hit (0 <? lots1)%Z (cost1 / (inject_Z lots1 * lot_value c))
                      (fprofit_pct c) price)) /\
  (exists ledger curve,
      backtest_stock eager_config [(1%Z, Some 100); (2%Z, Some 200)]
      = Ok (ledger, curve) /\
      map (@t_action Q) ledger = [BUY_INIT; BUY_ADD; SELL_ALL] /\
      map (@t_date Q) ledger = [1; 2; 2]%Z) /\
  (exists ledger curve,
      backtest_futures eager_futures_config
        [(1%Z, Some 100); (2%Z, Some 200)]
      = Ok (ledger, curve) /\
      map (@f_action Q) ledger = [BUY_INIT; BUY_ADD; SELL_ALL] /\
      map (@f_date Q) ledger = [1; 2; 2]%Z).
Proof.
  split; [ | split; [ | split ] ].
  - intros c s date price last s'; apply stock_bar_actions.
  - intros c s date price last s'; apply futures_bar_actions.
  - do 2 eexists; repeat split; reflexivity.
  - do 2 eexists; repeat split; reflexivity.
Qed.

Lemma add_is_evaluated_before_sell_witness :
  exists s' new,
    stock_bar eager_config opened_at_100 (2%Z, Some 200) = Ok s' /\
    trades s' = trades opened_at_100 ++ new /\
    map (@t_action Q) new = [BUY_ADD; SELL_ALL].
Proof.
  destruct (stock_bar_total eager_config (2%Z, Some 200)
              (s := opened_at_100)) as [s' [E _]].
  { intros _; exists 100; split; reflexivity. }
  destruct (proj1 add_is_evaluated_before_sell eager_config opened_at_100
              2%Z 200 100 s' eq_refl eq_refl eq_refl eq_refl E)
    as [new [T A]].
  exists s', new; repeat split; assumption.
Defined.

(** ** The scenario of the specification *)

(** C5, with the figures of the specification, fails: after the add the
    average entry price is more than 0.08 below 98.56, the price the
    target asks for is more than 0.08 below 103.49, and the equity of the
    last bar is more than 7 below 20722.68. *)
Lemma scenario_figures_differ :
  exists s,
    backtest_stock_loop scenario_config scenario_prices = Ok s /\
    avg_price s < (9856 # 100) - (8 # 100) /\
    target (avg_price s) (profit_pct scenario_config)
    < (10349 # 100) - (8 # 100) /\
    last (equity s) 0 < (2072268 # 100) - 7.
Proof. eexists; split; [ reflexivity | repeat split ]. Qed.

(** C5 (amended): on prices 100, 100, 97, 97, 102 with initial and add
    amounts of 10000, a drop of 2 and a profit of 5, the ledger is a
    BUY_INIT at 100 for 100 shares on the first bar and a BUY_ADD at 97
    for 103.0928 shares (10000/97) on the third, where the drawdown is 3;
    the average entry price is then 98.48 to two decimals, so the target
    is 103.40 and the last price 102 is below it: nothing is sold, nothing
    is realized, and the equity of the last bar, 20715.46 to two decimals,
    is the value of the shares held at 102. *)
Theorem scenario_run :
  exists ledger curve s,
    backtest_stock scenario_config scenario_prices = Ok (ledger, curve) /\
    backtest_stock_loop scenario_config scenario_prices = Ok s /\
    map (@t_action Q) ledger = [BUY_INIT; BUY_ADD] /\
    map (@t_date Q) ledger = [1; 3]%Z /\
    Forall2 Qeq (map (@t_price Q) ledger) [100; 97] /\
    Forall2 Qeq (map (@t_shares Q) ledger) [100; 1030928 # 10000] /\
    map (@t_cost Q) ledger = [Some 10000; Some 10000] /\
    drawdown 100 97 == 3 /\
    position_shares s == 100 + 10000 / 97 /\
    approx (10000 / 97) (10309 # 100) /\
    approx (avg_price s) (9848 # 100) /\
    approx (target (avg_price s) (profit_pct scenario_config))
           (10340 # 100) /\
    102 < target (avg_price s) (profit_pct scenario_config) /\
    realized_pnl s == 0 /\
    map fst curve = [1; 2; 3; 4; 5]%Z /\
    last (map snd curve) 0 == position_shares s * 102 /\
    approx (last (map snd curve) 0) (2071546 # 100).
Proof.
  do 3 eexists; split; [ reflexivity | split; [ reflexivity | ] ].
  repeat split; try reflexivity; try discriminate;
    repeat constructor; reflexivity.
Qed.

(** ** What a BUY_ADD row records *)

(** C10: the BUY_ADD rows of the two ledgers differ in what their size
    field holds.  In the stock ledger it is the quantity bought by the add
    ([add_inr / price], rounded to 4 decimals), not the shares held; in the
    futures ledger it is the lot count held after the add ([lots + 1]), not
    the one lot bought, next to a cost which is that of the one lot
    ([price * lot_value], rounded to 2 decimals). *)
Theorem buy_add_rows_differ :
  (forall (c : stock_config Q) s date price last,
      last_buy_price s = Some last -> 0 < last -> 0 < price ->
      drop_pct c <= drawdown last price ->
      exists s' row,
        stock_add c s date price = Ok s' /\
        trades s' = trades s ++ [row] /\
        t_action row = BUY_ADD /\
        t_shares row = round (add_inr c / price) 4 /\
        t_cost row = Some (add_inr c) /\
        position_shares s' = position_shares s + add_inr c / price /\
        position_cost s' = position_cost s + add_inr c) /\
  (forall (c : futures_config Q) s date price last,
      flast_buy_price s = Some last -> 0 < last ->
      add_lot_every_drop c <= drawdown last price ->
      exists s' row,
        futures_add c s date price = Ok s' /\
        ftrades s' = ftrades s ++ [row] /\
        f_action row = BUY_ADD /\
        f_lots row = lots s' /\
        lots s' = (lots s + 1)%Z /\
        f_cost row = Some (round (price * lot_value c) 2) /\
        total_cost s' = total_cost s + price * lot_value c) /\
  (exists ledger curve,
      backtest_futures app_futures_config
        [(1%Z, Some 100); (2%Z, Some 95); (3%Z, Some 90)]
      = Ok (ledger, curve) /\
      map (@f_action Q) ledger = [BUY_INIT; BUY_ADD; BUY_ADD] /\
      map (@f_lots Q) ledger = [1; 2; 3]%Z /\
      Forall2 (fun cost v => exists x, cost = Some x /\ x == v)
              (map (@f_cost Q) ledger) [100; 95; 90]).
Proof.
  split; [ | split ].
  - intros c s date price last L Pl P D.
    destruct (stock_add_spec c s date L Pl P) as [s' [E [H|[N _]]]];
      [ | exfalso; lra ].
    destruct H as [_ [T [_ [_ [C [S _]]]]]].
    exists s', (buy_add_row c date price); repeat split; assumption.
  - intros c s date price last L Pl D.
    destruct (futures_add_spec c s date price L Pl) as [s' [E [H|[N _]]]];
      [ | exfalso; lra ].
    destruct H as [_ [T [_ [_ [C [S _]]]]]].
    exists s', (fbuy_add_row c s date price); repeat split; try assumption.
    cbn [fbuy_add_row f_lots]; symmetry; assumption.
  - do 2 eexists; split; [ reflexivity | ].
    repeat split; repeat constructor; eexists; split; reflexivity.
Qed.

Lemma buy_add_rows_differ_witness :
  exists s' row,
    stock_add scenario_config held_100_at_100 2%Z 97 = Ok s' /\
    trades s' = [row] /\
    t_shares row = round (10000 / 97) 4 /\
    position_shares s' = 100 + 10000 / 97.
Proof.
  destruct (proj1 buy_add_rows_differ scenario_config held_100_at_100
              2%Z 97 100 eq_refl eq_refl eq_refl)
    as [s' [row [E [T [_ [S [_ [P _]]]]]]]].
  { discriminate. }
  exists s', row; repeat split; assumption.
Defined.

(** ** Add and sell in one bar, for a configuration in range

    In exact arithmetic. *)

Lemma Qdiv_pos (a b : Q) : 0 < a -> 0 < b -> 0 < a / b.
Proof.
  intros A B; unfold Qdiv; apply Qmult_lt_0_compat;
    [ assumption | apply Qinv_lt_0_compat; assumption ].
Qed.

(** A price at or above the target of a positive profit percentage is
    above the average, whatever the sign of the cost. *)
Lemma target_gain (cost size profit price : Q) :
  0 < size -> 0 < price -> 0 < profit ->
  target (cost / size) profit <= price ->
  0 < price * size - cost.
Proof.
  intros G P Hp T; unfold target in T.
  assert (A : cost / size * size == cost)
    by (field; intro Z; rewrite Z in G; discriminate).
  set (a := cost / size) in *.
  assert (M : a * (1 + profit / 100) * size <= price * size)
    by (apply Qmult_le_compat_r; [ assumption | apply Qlt_le_weak; assumption ]).
  assert (PS : 0 < price * size) by (apply Qmult_lt_0_compat; assumption).
  destruct (Qlt_le_dec 0 cost) as [C|C]; [ | clear - PS C; lra ].
  assert (CP : 0 < cost * profit) by (apply Qmult_lt_0_compat; assumption).
  assert (R : a * (1 + profit / 100) * size
              == cost + (1 # 100) * (cost * profit)).
  { setoid_replace (a * (1 + profit / 100) * size)
      with ((a * size) * (1 + profit / 100)) by ring.
    rewrite A; field. }
  rewrite R in M. clear - M CP. lra.
Qed.

Lemma add_below_last (threshold last price : Q) :
  0 <= threshold -> 0 < last -> threshold <= drawdown last price ->
  price <= last.
Proof.
  intros H0 Pl D; unfold drawdown in D.
  assert (N : 0 <= (last - price) / last) by lra.
  assert (M : (last - price) / last * last == last - price)
    by (field; intro Z; rewrite Z in Pl; discriminate).
  assert (K : 0 <= (last - price) / last * last)
    by (apply Qmult_le_0_compat; [ assumption | apply Qlt_le_weak; assumption ]).
  rewrite M in K; lra.
Qed.

Lemma above_average_no_sell (cost size profit price : Q) :
  0 < size -> 0 < price -> 0 < profit -> price * size <= cost ->
  price < target (cost / size) profit.
Proof.
  intros G P Hp B.
  apply Qnot_le_lt; intro T.
  pose proof (target_gain (cost := cost) G P Hp T); lra.
Qed.

Lemma stock_bar_bought_above (c : stock_config Q) s bar s' :
  0 < initial_inr c -> 0 < add_inr c -> 0 <= drop_pct c ->
  bought_above s -> stock_bar c s bar = Ok s' -> bought_above s'.
Proof.
  intros Hi Ha Hd Hs E; destruct bar as [date [price|]];
    [ | rewrite stock_bar_skip in E by reflexivity; ok_inv E; assumption ].
  destruct (invalid (Some price)) eqn:V.
  - rewrite stock_bar_skip in E by assumption; ok_inv E; assumption.
  - unfold stock_bar in E; rewrite V in E; cbn [number bind] in E.
    apply invalid_Some in V.
    destruct (in_position s) eqn:I; cbn [negb] in E.
    + destruct (Hs I) as [last [L [Pl [G B]]]].
      destruct (stock_add_spec c s date L Pl V) as [s1 [E1 H1]].
      rewrite E1 in E; cbn [bind] in E.
      destruct (stock_sell_spec c s1 date price) as [s2 [E2 H2]].
      rewrite E2 in E; cbn [bind] in E; ok_inv E.
      unfold bought_above; cbn.
      destruct H2 as [H2|[_ ->]].
      * intro C; decompose [and] H2; congruence.
      * destruct H1 as [H1|[_ ->]]; [ | exact Hs ].
        destruct H1 as [D [_ [_ [_ [-> [-> [-> _]]]]]]].
        intros _; exists price; repeat split; try assumption.
        -- pose proof (Qdiv_pos Ha V); lra.
        -- assert (Le : price <= last)
             by (apply add_below_last with (threshold := drop_pct c);
                 assumption).
           assert (M : price * position_shares s <= last * position_shares s)
             by (apply Qmult_le_compat_r;
                 [ assumption | apply Qlt_le_weak; assumption ]).
           assert (F : price * (position_shares s + add_inr c / price)
                       == price * position_shares s + add_inr c)
             by (field; intro Z; rewrite Z in V; discriminate).
           rewrite F; lra.
    + destruct (stock_open_spec c s date V) as [s1 [E1 H1]].
      rewrite E1 in E; cbn [bind] in E; ok_inv E.
      unfold bought_above; cbn.
      destruct H1 as [_ [_ [_ [-> [-> [-> _]]]]]].
      intros _; exists price; repeat split; try assumption.
      * apply Qdiv_pos; assumption.
      * assert (F : price * (initial_inr c / price) == initial_inr c)
          by (field; intro Z; rewrite Z in V; discriminate).
        rewrite F; apply Qle_refl.
Qed.

(** With positive amounts, a non-negative drop percentage and a positive
    profit percentage, no bar of a run both adds and sells: the average
    after an add is at least the price of the add. *)
Lemma in_range_add_is_not_sold_in_its_bar (c : stock_config Q) prices s bar s' new :
  0 < initial_inr c -> 0 < add_inr c ->
  0 <= drop_pct c -> 0 < profit_pct c ->
  backtest_stock_loop c prices = Ok s ->
  stock_bar c s bar = Ok s' -> trades s' = trades s ++ new ->
  map (@t_action Q) new <> [BUY_ADD; SELL_ALL].
Proof.
  intros Hi Ha Hd Hp E Eb T.
  assert (Hs : bought_above s).
  { revert E; apply for_each_invariant with (P := bought_above).
    - intros s0 x s1; apply stock_bar_bought_above; assumption.
    - intro C; discriminate. }
  destruct bar as [date [price|]].
  2:{ rewrite stock_bar_skip in Eb by reflexivity; ok_inv Eb.
      assert (new = [])
        by (apply (app_inv_head (trades s')); rewrite app_nil_r; congruence).
      subst new; discriminate. }
  destruct (invalid (Some price)) eqn:V.
  { rewrite stock_bar_skip in Eb by assumption; ok_inv Eb.
    assert (new = [])
      by (apply (app_inv_head (trades s')); rewrite app_nil_r; congruence).
    subst new; discriminate. }
  apply invalid_Some in V.
  destruct (in_position s) eqn:I.
  - destruct (Hs I) as [last [L [Pl [G B]]]].
    destruct (stock_bar_emits c s date I L Pl V Eb) as [n [Tn [HA HN]]].
    assert (new = n) by (apply (app_inv_head (trades s)); congruence).
    subst n; cbn zeta in HA, HN.
    destruct (Qlt_le_dec (drawdown last price) (drop_pct c)) as [D|D].
    + destruct (HN D) as [H1 H2].
      destruct (Qlt_le_dec 0 (position_shares s)) as [G'|G'];
        [ | rewrite H2 by (left; assumption); discriminate ].
      destruct (Qlt_le_dec price
                  (target (position_cost s / position_shares s)
                          (profit_pct c))) as [T1|T1].
      * rewrite H2 by (right; assumption); discriminate.
      * rewrite H1 by (split; assumption); discriminate.
    + destruct (HA D) as [_ H2].
      rewrite H2; [ discriminate | right ].
      apply above_average_no_sell; try assumption.
      * pose proof (Qdiv_pos Ha V); lra.
      * assert (Le : price <= last)
          by (apply add_below_last with (threshold := drop_pct c);
              assumption).
        assert (M : price * position_shares s <= last * position_shares s)
          by (apply Qmult_le_compat_r;
              [ assumption | apply Qlt_le_weak; assumption ]).
        assert (F : price * (position_shares s + add_inr c / price)
                    == price * position_shares s + add_inr c)
          by (field; intro Z; rewrite Z in V; discriminate).
        rewrite F; lra.
  - unfold stock_bar in Eb; rewrite (proj2 (invalid_Some price) V) in Eb.
    cbn [number bind] in Eb; rewrite I in Eb; cbn [negb] in Eb.
    destruct (stock_open_spec c s date V) as [s1 [E1 H1]].
    rewrite E1 in Eb; cbn [bind] in Eb; ok_inv Eb.
    cbn [stock_mark trades] in T.
    destruct H1 as [T1 _]; rewrite T1 in T.
    apply app_inv_head in T; subst new; discriminate.
Qed.

End Claims.

(** * The claims that hold of any arithmetic

    The claims of this part are about what the comparisons of the loops
    decide and what the variables then hold.  They are proved for every
    arithmetic that satisfies the laws of [Lawful], binary64 included:
    sizes, costs, targets and profits are the values the loop computes,
    written with the operations of the arithmetic. *)

Section ClaimsOnAnyArithmetic.

Context {R : Type} `{Lawful R}.
Local Open Scope num_scope.

(** ** Skipped bars *)

(** C1: a bar whose price is missing or non-positive is skipped by the
    [continue] of line 34 (99) before the equity list is appended to.  The
    loop over a series with such a bar ends in the state of the loop over
    the series without it, with one equity value per valid bar, fewer than
    the series has bars; and line 85 (149), which indexes the equity list
    by every bar of the series, raises [ValueError]: no run over such a
    series returns. *)
Theorem skipped_bar_breaks_the_curve
        (c : stock_config R) (fc : futures_config R)
        (before after : list (Date * option R)) (bar : Date * option R) :
  invalid (snd bar) = true ->
  (exists s,
      backtest_stock_loop c (before ++ bar :: after) = Ok s /\
      backtest_stock_loop c (before ++ after) = Ok s /\
      length (equity s) = length (valid_bars (before ++ after)) /\
      (length (equity s) < length (before ++ bar :: after))%nat) /\
  backtest_stock c (before ++ bar :: after) = Raise ValueError /\
  (forall fs,
      backtest_futures_loop fc (before ++ bar :: after) = Ok fs ->
      backtest_futures_loop fc (before ++ after) = Ok fs /\
      length (fequity fs) = length (valid_bars (before ++ after)) /\
      (length (fequity fs) < length (before ++ bar :: after))%nat /\
      backtest_futures fc (before ++ bar :: after) = Raise ValueError) /\
  (forall out, backtest_futures fc (before ++ bar :: after) <> Ok out).
Proof.
  intro V.
  assert (Sk : has_skipped_bar (before ++ bar :: after)).
  { exists bar; split; [ apply in_elt | exact V ]. }
  apply skipped_bar_is_not_counted in Sk.
  assert (Es : backtest_stock_loop c (before ++ bar :: after)
               = backtest_stock_loop c (before ++ after)).
  { apply loop_skips; intro s0; destruct bar as [date price].
    apply stock_bar_skip; exact V. }
  assert (Ef : backtest_futures_loop fc (before ++ bar :: after)
               = backtest_futures_loop fc (before ++ after)).
  { apply loop_skips; intro s0; destruct bar as [date price].
    apply futures_bar_skip; exact V. }
  assert (F : forall fs,
             backtest_futures_loop fc (before ++ bar :: after) = Ok fs ->
             backtest_futures_loop fc (before ++ after) = Ok fs /\
             length (fequity fs) = length (valid_bars (before ++ after)) /\
             (length (fequity fs) < length (before ++ bar :: after))%nat /\
             backtest_futures fc (before ++ bar :: after) = Raise ValueError).
  { intros fs E.
    pose proof (futures_loop_equity_length fc _ _ E) as L;
      cbn [futures_init fequity length Nat.add] in L.
    assert (L' : length (fequity fs) = length (valid_bars (before ++ after))).
    { rewrite Ef in E.
      pose proof (futures_loop_equity_length fc _ _ E) as L2; exact L2. }
    split; [ rewrite <- Ef; exact E | split; [ exact L' | split; [ lia | ] ] ].
    unfold backtest_futures; rewrite E; cbn [bind].
    rewrite pd_Series_shorter by (rewrite length_map; lia); reflexivity. }
  split; [ | split; [ | split; [ exact F | ] ] ].
  - destruct (stock_loop_returns c (before ++ bar :: after)) as [s [E _]].
    pose proof (stock_loop_equity_length c _ _ E) as L;
      cbn [stock_init equity length Nat.add] in L.
    exists s; split; [ exact E | split; [ rewrite <- Es; exact E | ] ].
    rewrite Es in E.
    pose proof (stock_loop_equity_length c _ _ E) as L2.
    split; [ exact L2 | lia ].
  - destruct (stock_loop_returns c (before ++ bar :: after)) as [s [E _]].
    pose proof (stock_loop_equity_length c _ _ E) as L;
      cbn [stock_init equity length Nat.add] in L.
    unfold backtest_stock; rewrite E; cbn [bind].
    rewrite pd_Series_shorter by (rewrite length_map; lia); reflexivity.
  - intros out E; unfold backtest_futures in E.
    destruct (backtest_futures_loop fc (before ++ bar :: after))
      as [fs|e] eqn:El; [ | discriminate ].
    destruct (F fs eq_refl) as [_ [_ [_ Ev]]].
    unfold backtest_futures in Ev; rewrite El in Ev.
    rewrite Ev in E; discriminate.
Qed.

(** ** The position between two bars *)

Lemma flat_is_not_held (s : stock_state R) :
  flat s -> ~ above_zero (position_shares s).
Proof.
  intros [_ [Z _]] G; unfold above_zero in G; rewrite Z in G.
  rewrite zero_is_not_positive in G; discriminate.
Qed.

Lemma between_bars_position (s : stock_state R) :
  between_bars s ->
  (last_buy_price s <> None <-> in_position s = true) /\
  (in_position s = false -> flat s) /\
  (above_zero (position_shares s) -> in_position s = true).
Proof.
  intros [[I [last [L _]]]|F].
  - rewrite I, L; repeat split; auto; discriminate.
  - pose proof (flat_is_not_held F) as N.
    destruct F as [I [Sh [C L]]]; rewrite I, L.
    split; [ split; [ intro K; contradiction | discriminate ] | ].
    split; [ intros _; repeat split; assumption | ].
    intro G; contradiction.
Qed.

(** The rows a valid bar appends, and the position it leaves. *)
Lemma traded_rows (c : stock_config R) s date price :
  between_bars s ->
  exists new,
    trades (traded c s date price) = trades s ++ new /\
    (In SELL_ALL (map (@t_action R) new) -> flat (traded c s date price)).
Proof.
  intros B; unfold traded.
  destruct B as [[I [last [L _]]]|[I _]]; rewrite I.
  - rewrite L.
    destruct (after_add_cases c s date last price) as [[_ ->]|[_ ->]];
      match goal with |- context [after_sell c ?s1 date price] =>
        destruct (after_sell_cases c s1 date price) as [[_ ->]|[_ ->]]
      end; cbn [sold added trades].
    + rewrite <- app_assoc; eexists; split; [ reflexivity | ].
      intros _; repeat split.
    + eexists; split; [ reflexivity | ].
      cbn; intros [N|[]]; discriminate.
    + eexists; split; [ reflexivity | ]. intros _; repeat split.
    + exists []; split; [ symmetry; apply app_nil_r | intros [] ].
  - cbn [opened trades]; eexists; split; [ reflexivity | ].
    cbn; intros [N|[]]; discriminate.
Qed.

Lemma fbetween_bars_position (c : futures_config R) (s : futures_state R) :
  (0 < initial_lots c)%Z -> fbetween_bars c s ->
  (fin_position s = true <-> (0 < lots s)%Z) /\
  (lots s = 0%Z -> total_cost s = of_int 0) /\
  (flast_buy_price s <> None <-> fin_position s = true).
Proof.
  intros Hl [[I [Ge [last [L _]]]]|[I [Z [C L]]]].
  - rewrite I, L; repeat split; intros; auto; try lia; discriminate.
  - rewrite I, L, Z; repeat split; intros; auto; try lia; try congruence;
      discriminate.
Qed.

Lemma ftraded_rows (c : futures_config R) s date price :
  fbetween_bars c s ->
  exists new,
    ftrades (ftraded c s date price) = ftrades s ++ new /\
    (In SELL_ALL (map (@f_action R) new) -> fflat (ftraded c s date price)).
Proof.
  intros B; unfold ftraded.
  destruct B as [[I [_ [last [L _]]]]|[I _]]; rewrite I.
  - rewrite L.
    destruct (fafter_add_cases c s date last price) as [[_ ->]|[_ ->]];
      match goal with |- context [fafter_sell c ?s1 date price] =>
        destruct (fafter_sell_cases c s1 date price) as [[_ ->]|[_ ->]]
      end; cbn [fsold fadded ftrades].
    + rewrite <- app_assoc; eexists; split; [ reflexivity | ].
      intros _; repeat split.
    + eexists; split; [ reflexivity | ].
      cbn; intros [N|[]]; discriminate.
    + eexists; split; [ reflexivity | ]. intros _; repeat split.
    + exists []; split; [ symmetry; apply app_nil_r | intros [] ].
  - cbn [fopened ftrades]; eexists; split; [ reflexivity | ].
    cbn; intros [N|[]]; discriminate.
Qed.

(** While a position is open its size is positive, when every purchase
    of the run buys a positive size. *)
Lemma traded_size (c : stock_config R) s date price :
  above_zero (quot (initial_inr c) price) ->
  above_zero (quot (add_inr c) price) ->
  (in_position s = true -> above_zero (position_shares s)) ->
  in_position (traded c s date price) = true ->
  above_zero (position_shares (traded c s date price)).
Proof.
  intros Hi Ha Hs; unfold traded.
  destruct (in_position s) eqn:I; [ | intros _; exact Hi ].
  destruct (last_buy_price s) as [last|]; [ | intros _; apply Hs; reflexivity ].
  destruct (after_add_cases c s date last price) as [[_ ->]|[_ ->]];
    match goal with |- context [after_sell c ?s1 date price] =>
      destruct (after_sell_cases c s1 date price) as [[_ ->]|[_ ->]]
    end; cbn [sold added in_position position_shares]; try discriminate.
  - intros _; apply add_positive; [ apply Hs; reflexivity | exact Ha ].
  - intros _; apply Hs; reflexivity.
Qed.

(** C6 (amended): after every bar of a run, in either engine, the last
    entry price is defined if and only if a position is open, and with no
    position open the size and the cost basis are 0 and the last entry
    price undefined: so the size is positive only while a position is
    open, and a bar that appends a SELL_ALL leaves the position closed,
    with size, cost basis and last entry price reset.  In the futures
    engine with a positive initial lot count a position is open if and
    only if the lot count is positive, and the cost basis is 0 whenever
    the lot count is 0.  In the stock engine an open position has a
    positive size, and the cost basis is 0 whenever the size is 0, when
    every purchase of the run buys a positive size: when the quotients
    [initial_inr / price] and [add_inr / price] the loop computes are
    positive at every valid price of the series.  The run of the theorem
    stands for every prefix of a series, hence for the state after each
    bar. *)
Theorem position_invariant_after_each_bar
        (c : stock_config R) (fc : futures_config R)
        (prices : list (Date * option R)) :
  (exists s, backtest_stock_loop c prices = Ok s) /\
  (forall s,
      backtest_stock_loop c prices = Ok s ->
      (last_buy_price s <> None <-> in_position s = true) /\
      (in_position s = false -> flat s) /\
      (above_zero (position_shares s) -> in_position s = true) /\
      ((forall date price,
           In (date, Some price) prices -> invalid (Some price) = false ->
           above_zero (quot (initial_inr c) price) /\
           above_zero (quot (add_inr c) price)) ->
       (in_position s = true <-> above_zero (position_shares s)) /\
       (is_zero (position_shares s) = true -> position_cost s = of_int 0))) /\
  (forall s bar s' new,
      backtest_stock_loop c prices = Ok s -> stock_bar c s bar = Ok s' ->
      trades s' = trades s ++ new -> In SELL_ALL (map (@t_action R) new) ->
      flat s') /\
  ((0 < initial_lots fc)%Z ->
   forall fs,
     backtest_futures_loop fc prices = Ok fs ->
     (fin_position fs = true <-> (0 < lots fs)%Z) /\
     (lots fs = 0%Z -> total_cost fs = of_int 0) /\
     (flast_buy_price fs <> None <-> fin_position fs = true)) /\
  (forall fs bar fs' new,
      backtest_futures_loop fc prices = Ok fs ->
      futures_bar fc fs bar = Ok fs' ->
      ftrades fs' = ftrades fs ++ new ->
      In SELL_ALL (map (@f_action R) new) ->
      fflat fs').
Proof.
  assert (Bs : forall s, backtest_stock_loop c prices = Ok s -> between_bars s).
  { intros s E; destruct (stock_loop_returns c prices) as [s0 [E0 B]].
    rewrite E in E0; ok_inv E0; exact B. }
  assert (Bf : forall fs, backtest_futures_loop fc prices = Ok fs ->
                          fbetween_bars fc fs).
  { apply (@futures_loop_keeps _ _ _ fc (fbetween_bars fc) prices);
      [ apply futures_init_between_bars | ].
    intros s date price _ B _ V; apply ftraded_between_bars; assumption. }
  split; [ | split; [ | split; [ | split ] ] ].
  - destruct (stock_loop_returns c prices) as [s [E _]]; eauto.
  - intros s E; pose proof (Bs s E) as B.
    destruct (between_bars_position B) as [P1 [P2 P3]].
    split; [ exact P1 | split; [ exact P2 | split; [ exact P3 | ] ] ].
    intro Hq.
    assert (G : in_position s = true -> above_zero (position_shares s)).
    { revert s E B P1 P2 P3.
      apply (@stock_loop_keeps _ _ _ c
               (fun s => _ -> _ -> _ -> _ ->
                         in_position s = true ->
                         above_zero (position_shares s)) prices).
      - intros _ _ _ _ I; discriminate.
      - intros s date price Hb B0 G0 V _ _ _ _.
        destruct (Hq date price Hb V) as [Hi Ha].
        cbn [stock_mark in_position position_shares].
        apply traded_size; try assumption.
        intro I; apply G0; try assumption;
          apply (between_bars_position B0). }
    split; [ split; [ exact G | exact P3 ] | ].
    intro Z; apply P2.
    destruct (in_position s) eqn:I; [ | reflexivity ].
    rewrite (positive_is_not_zero _ (G eq_refl)) in Z; discriminate.
  - intros s bar s' new E Eb T Hin; pose proof (Bs s E) as B.
    destruct (bar_is_skipped_or_valid bar) as [V|[date [price [-> V]]]].
    + destruct bar as [date price]; rewrite stock_bar_skip in Eb by exact V.
      ok_inv Eb.
      assert (new = [])
        by (apply (app_inv_head (trades s')); rewrite app_nil_r; congruence).
      subst new; destruct Hin.
    + rewrite stock_bar_traded in Eb by assumption; ok_inv Eb.
      destruct (traded_rows c date price B) as [n [Tn Fn]].
      cbn [stock_mark trades] in T.
      assert (new = n) by (apply (app_inv_head (trades s)); congruence).
      subst n; exact (Fn Hin).
  - intros Hl fs E; apply fbetween_bars_position with (c := fc);
      [ exact Hl | exact (Bf fs E) ].
  - intros fs bar fs' new E Eb T Hin; pose proof (Bf fs E) as B.
    destruct (bar_is_skipped_or_valid bar) as [V|[date [price [-> V]]]].
    + destruct bar as [date price]; rewrite futures_bar_skip in Eb by exact V.
      ok_inv Eb.
      assert (new = [])
        by (apply (app_inv_head (ftrades fs')); rewrite app_nil_r; congruence).
      subst new; destruct Hin.
    + apply futures_bar_traded in Eb; [ subst fs' | assumption | assumption ].
      destruct (ftraded_rows date price B) as [n [Tn Fn]].
      cbn [futures_mark ftrades] in T.
      assert (new = n) by (apply (app_inv_head (ftrades fs)); congruence).
      subst n; exact (Fn Hin).
Qed.

(** ** The futures position is a whole number of lots *)

(** C7: in the futures engine the position is counted in lots, a Python
    [int] ([Z] here), never a fraction.  For a positive initial lot count
    the count after every bar is 0 with no position open and at least the
    initial count with one open.  The add block adds when the drawdown has
    reached the threshold, and then raises the count by exactly 1 and the
    cost basis by exactly [price * lot_value], recording the new count; it
    changes nothing otherwise.  The sell block compares the price with the
    target of the average [total_cost / (lots * lot_value)]. *)
Theorem lots_are_whole (c : futures_config R) :
  (0 < initial_lots c)%Z ->
  (forall prices s,
      backtest_futures_loop c prices = Ok s ->
      (0 <= lots s)%Z /\
      (fin_position s = true -> (initial_lots c <= lots s)%Z) /\
      (fin_position s = false -> lots s = 0%Z)) /\
  ((forall n, (initial_lots c <= n)%Z -> is_zero (of_int n * lot_value c) = false) ->
   forall prices, exists s, backtest_futures_loop c prices = Ok s) /\
  (forall s date last price,
      flast_buy_price s = Some last -> is_zero last = false ->
      exists s',
        futures_add c s date price = Ok s' /\
        if computed_drawdown last price >=? add_lot_every_drop c
        then lots s' = (lots s + 1)%Z /\
             total_cost s' = total_cost s + price * lot_value c /\
             exists row,
               ftrades s' = ftrades s ++ [row] /\
               f_action row = BUY_ADD /\ f_lots row = (lots s + 1)%Z
        else s' = s) /\
  (forall s date price s',
      (0 < lots s)%Z -> futures_sell c s date price = Ok s' ->
      is_zero (of_int (lots s) * lot_value c) = false /\
      if price >=? computed_target
                     (quot (total_cost s) (of_int (lots s) * lot_value c))
                     (fprofit_pct c)
      then lots s' = 0%Z /\
           exists row,
             ftrades s' = ftrades s ++ [row] /\
             f_action row = SELL_ALL /\ f_lots row = lots s
      else s' = s).
Proof.
  intro Hl; split; [ | split; [ | split ] ].
  - intros prices s E.
    assert (B : fbetween_bars c s).
    { revert s E.
      apply (@futures_loop_keeps _ _ _ c (fbetween_bars c) prices);
        [ apply futures_init_between_bars | ].
      intros s date price _ B _ V; apply ftraded_between_bars; assumption. }
    destruct B as [[I [Ge _]]|[I [Z _]]]; rewrite I;
      repeat split; intros; try lia; discriminate.
  - intros Hz prices.
    destruct (@futures_loop_returns _ _ _ c prices Hz) as [s [E _]]; eauto.
  - intros s date last price L Zl.
    rewrite futures_add_after with (last := last) by assumption.
    eexists; split; [ reflexivity | ].
    unfold fafter_add, fadd_test.
    destruct (leb _ _); [ | reflexivity ].
    cbn [fadded lots total_cost ftrades].
    split; [ reflexivity | split; [ reflexivity | ] ].
    eexists; split; [ reflexivity | split; reflexivity ].
  - intros s date price s' G E.
    rewrite futures_sell_after in E.
    apply Z.ltb_lt in G.
    unfold fafter_sell, fsell_test, fsize in E; rewrite G in E.
    cbn [andb] in E.
    destruct (is_zero (of_int (lots s) * lot_value c)); [ discriminate | ].
    split; [ reflexivity | ].
    destruct (leb _ _); ok_inv E; [ | reflexivity ].
    cbn [fsold lots ftrades].
    split; [ reflexivity | ].
    eexists; split; [ reflexivity | split; reflexivity ].
Qed.

(** ** Inclusive thresholds *)

(** C8: both thresholds are inclusive, in both engines.  On a valid bar
    with a position open, the bar runs the add block, then the sell block
    on the position the add block leaves.  When the drawdown the loop
    computes is the drop percentage, the add block adds (the test is
    [>=]); when the price is the target the loop computes from the
    average entry price, the sell block sells.  Equality is that of the
    computed values. *)
Theorem thresholds_are_inclusive :
  (forall (c : stock_config R) s date last price,
      in_position s = true -> last_buy_price s = Some last ->
      invalid (Some last) = false -> invalid (Some price) = false ->
      let s1 := after_add c s date last price in
      let s2 := after_sell c s1 date price in
      stock_bar c s (date, Some price) = Ok (stock_mark s2 price) /\
      (isna (drop_pct c) = false ->
       computed_drawdown last price = drop_pct c ->
       s1 = added c s date price) /\
      (above_zero (position_shares s1) ->
       price = computed_target
                 (quot (position_cost s1) (position_shares s1))
                 (profit_pct c) ->
       s2 = sold s1 date price)) /\
  (forall (c : futures_config R) s date last price,
      fin_position s = true -> flast_buy_price s = Some last ->
      invalid (Some last) = false -> invalid (Some price) = false ->
      let s1 := fafter_add c s date last price in
      let s2 := fafter_sell c s1 date price in
      (isna (add_lot_every_drop c) = false ->
       computed_drawdown last price = add_lot_every_drop c ->
       s1 = fadded c s date price) /\
      ((0 < lots s1)%Z -> is_zero (fsize c (lots s1)) = false ->
       futures_bar c s (date, Some price) = Ok (futures_mark c s2 price) /\
       (price = computed_target (quot (total_cost s1) (fsize c (lots s1)))
                                (fprofit_pct c) ->
        s2 = fsold c s1 date price))).
Proof.
  split.
  - intros c s date last price I L Vl V s1 s2; split; [ | split ].
    + rewrite stock_bar_traded;
        [ | left; split; [ exact I | eauto ] | exact V ].
      unfold traded; rewrite I, L; reflexivity.
    + intros N D; unfold s1, after_add, add_test.
      rewrite D, leb_refl by exact N; reflexivity.
    + intros G T; unfold s2, after_sell, sell_test.
      unfold above_zero in G; rewrite G, <- T; cbn [andb].
      rewrite leb_refl by (apply valid_is_a_number; exact V); reflexivity.
  - intros c s date last price I L Vl V s1 s2; split.
    + intros N D; unfold s1, fafter_add, fadd_test.
      rewrite D, leb_refl by exact N; reflexivity.
    + intros G Z; apply Z.ltb_lt in G; split.
      * unfold futures_bar; rewrite V, I; cbn [number bind negb].
        rewrite futures_add_after with (last := last)
          by (try apply valid_is_not_zero; assumption).
        cbn [bind]; rewrite futures_sell_after.
        fold s1; rewrite Z, andb_false_r; reflexivity.
      * intro T; unfold s2, fafter_sell, fsell_test.
        rewrite G, <- T; cbn [andb].
        rewrite leb_refl by (apply valid_is_a_number; exact V); reflexivity.
Qed.

(** ** Sells and the realized profit *)






End ClaimsOnAnyArithmetic.

(** * Further properties of the two engines *)

Section Further.

Local Open Scope Q_scope.

(** ** A bar, block by block *)

Lemma stock_bar_view (c : stock_config Q) s date price s' :
  stock_safe s -> 0 < price ->
  stock_bar c s (date, Some price) = Ok s' ->
  exists s2, s' = stock_mark s2 price /\
    ((in_position s = false /\ opens c date price s s2)
     \/ exists last s1,
          in_position s = true /\ last_buy_price s = Some last /\
          0 < last /\ adds c date price last s s1 /\
          sells c date price s1 s2).
Proof.
  intros Hs P E.
  unfold stock_bar in E; rewrite (proj2 (invalid_Some price) P) in E.
  cbn [number bind] in E.
  destruct (in_position s) eqn:I; cbn [negb] in E.
  - destruct (Hs I) as [last [L Pl]].
    destruct (stock_add_spec c s date L Pl P) as [s1 [E1 H1]].
    rewrite E1 in E; cbn [bind] in E.
    destruct (stock_sell_spec c s1 date price) as [s2 [E2 H2]].
    rewrite E2 in E; cbn [bind] in E; ok_inv E.
    exists s2; split; [ reflexivity | right ].
    exists last, s1; repeat split; assumption.
  - destruct (stock_open_spec c s date P) as [s1 [E1 H1]].
    rewrite E1 in E; cbn [bind] in E; ok_inv E.
    exists s1; split; [ reflexivity | left; split; [ reflexivity | exact H1 ] ].
Qed.

Lemma futures_bar_view (c : futures_config Q) s date price s' :
  futures_safe s -> 0 < price ->
  futures_bar c s (date, Some price) = Ok s' ->
  exists s2, s' = futures_mark c s2 price /\
    ((fin_position s = false /\ fopens c date price s s2)
     \/ exists last s1,
          fin_position s = true /\ flast_buy_price s = Some last /\
          0 < last /\ fadds c date price last s s1 /\
          fsells c date price s1 s2).
Proof.
  intros Hs P E.
  unfold futures_bar in E; rewrite (proj2 (invalid_Some price) P) in E.
  cbn [number bind] in E.
  destruct (fin_position s) eqn:I; cbn [negb] in E.
  - destruct (Hs I) as [last [L Pl]].
    destruct (futures_add_spec c s date price L Pl) as [s1 [E1 H1]].
    rewrite E1 in E; cbn [bind] in E.
    destruct (Qeq_dec (lot_value c) 0) as [Z|Hv].
    + unfold futures_sell in E.
      destruct (Z.ltb_spec 0 (lots s1)) as [G|G].
      * rewrite truediv_zero in E
          by (cbn [of_int mul Q_number]; rewrite Z; ring).
        discriminate.
      * ok_inv E. exists s1; split; [ reflexivity | right ].
        exists last, s1; repeat split; try assumption.
        right; split; [ left; assumption | reflexivity ].
    + destruct (futures_sell_spec c s1 date price Hv) as [s2 [E2 H2]].
      rewrite E2 in E; cbn [bind] in E; ok_inv E.
      exists s2; split; [ reflexivity | right ].
      exists last, s1; repeat split; try assumption.
      destruct H2 as [H2|[[N|N] ->]].
      * left; split; assumption.
      * right; split; [ left; assumption | reflexivity ].
      * right; split; [ right; split; assumption | reflexivity ].
  - destruct (futures_open_spec c s date price) as [s1 [E1 H1]].
    rewrite E1 in E; cbn [bind] in E; ok_inv E.
    exists s1; split; [ reflexivity | left; split; [ reflexivity | exact H1 ] ].
Qed.

(** A bar is skipped or is a valid bar. *)
Lemma bar_cases (bar : Date * option Q) :
  invalid (snd bar) = true \/
  exists date price, bar = (date, Some price) /\ 0 < price.
Proof.
  destruct bar as [date [price|]]; [ | left; reflexivity ].
  destruct (invalid (Some price)) eqn:V; [ left; assumption | right ].
  apply invalid_Some in V; eauto.
Qed.

(** ** Invariants of the loops, from safe states *)

Lemma futures_bar_safe (c : futures_config Q) s bar s' :
  futures_safe s -> futures_bar c s bar = Ok s' -> futures_safe s'.
Proof.
  intros Hs E.
  destruct (bar_cases bar) as [V|[date [price [-> P]]]].
  - destruct bar as [date price].
    rewrite futures_bar_skip in E by assumption; ok_inv E; assumption.
  - destruct (futures_bar_view c date Hs P E) as [s2 [-> H]].
    unfold futures_safe; cbn [futures_mark flast_buy_price fin_position].
    destruct H as [[_ H]|[last [s1 [I [L [Pl [HA HS]]]]]]].
    + intros _; exists price; unfold fopens in H; decompose [and] H; auto.
    + destruct HS as [HS|[_ ->]].
      * intro C; decompose [and] HS; congruence.
      * destruct HA as [HA|[_ ->]]; [ | exact Hs ].
        intros _; exists price; decompose [and] HA; auto.
Qed.

Lemma stock_loop_invariant (c : stock_config Q) (P : stock_state Q -> Prop) :
  P stock_init ->
  (forall s bar s',
      stock_safe s -> P s -> stock_bar c s bar = Ok s' -> P s') ->
  forall prices s, backtest_stock_loop c prices = Ok s -> P s.
Proof.
  intros H0 Hstep prices s E.
  assert (H : stock_safe s /\ P s); [ | tauto ].
  revert E; apply for_each_invariant with (P := fun s => stock_safe s /\ P s).
  - intros s0 bar s1 [S0 P0] E; split; [ | eauto ].
    destruct (stock_bar_total c bar S0) as [s1' [E1 S1]].
    rewrite E in E1; ok_inv E1; assumption.
  - split; [ apply stock_init_safe | assumption ].
Qed.

Lemma futures_loop_invariant (c : futures_config Q)
      (P : futures_state Q -> Prop) :
  P futures_init ->
  (forall s bar s',
      futures_safe s -> P s -> futures_bar c s bar = Ok s' -> P s') ->
  forall prices s, backtest_futures_loop c prices = Ok s -> P s.
Proof.
  intros H0 Hstep prices s E.
  assert (H : futures_safe s /\ P s); [ | tauto ].
  revert E;
    apply for_each_invariant with (P := fun s => futures_safe s /\ P s).
  - intros s0 bar s1 [S0 P0] E; split; [ | eauto ].
    apply (futures_bar_safe c bar S0 E).
  - split; [ apply futures_init_safe | assumption ].
Qed.

(** ** The ledger is a sequence of position cycles *)

Lemma position_cycle_app (open : bool) (l l' : list action) :
  position_cycle open (l ++ l')
  = match position_cycle open l with
    | Some open' => position_cycle open' l'
    | None => None
    end.
Proof.
  revert open; induction l as [|a l IH]; intro open; [ reflexivity | ].
  destruct a, open; cbn [app position_cycle]; auto.
Qed.

Lemma position_cycle_counts (actions : list action) :
  forall open open',
    position_cycle open actions = Some open' ->
    (count_action BUY_INIT actions + (if open then 1 else 0)
     = count_action SELL_ALL actions + (if open' then 1 else 0))%nat.
Proof.
  unfold count_action.
  induction actions as [|a l IH]; intros open open' E.
  - cbn in E; ok_inv E; reflexivity.
  - destruct a, open; cbn [position_cycle] in E; try discriminate;
      apply IH in E; cbn [filter action_eqb length] in *; lia.
Qed.

Lemma position_cycle_starts (actions : list action) (open' : bool) (a : action) :
  position_cycle false actions = Some open' ->
  hd_error actions = Some a -> a = BUY_INIT.
Proof.
  destruct actions as [|b l]; [ discriminate | ].
  destruct b; cbn; intros E H; try discriminate; congruence.
Qed.

Lemma stock_bar_cycle (c : stock_config Q) s bar s' :
  stock_safe s ->
  position_cycle false (map (@t_action Q) (trades s)) = Some (in_position s) ->
  stock_bar c s bar = Ok s' ->
  position_cycle false (map (@t_action Q) (trades s')) = Some (in_position s').
Proof.
  intros Hs H E.
  destruct (bar_cases bar) as [V|[date [price [-> P]]]].
  - destruct bar as [date price].
    rewrite stock_bar_skip in E by assumption; ok_inv E; assumption.
  - destruct (stock_bar_view c date Hs P E) as [s2 [-> HV]].
    cbn [stock_mark trades in_position].
    destruct HV as [[I HO]|[last [s1 [I [L [Pl [HA HS]]]]]]].
    + destruct HO as [T [_ [_ [_ [_ [_ I2]]]]]].
      rewrite T, map_app, position_cycle_app, H, I, I2; reflexivity.
    + assert (H1 : position_cycle false (map (@t_action Q) (trades s1))
                   = Some (in_position s1)).
      { destruct HA as [HA|[_ ->]]; [ | assumption ].
        destruct HA as [_ [T [_ [_ [_ [_ [_ I1]]]]]]].
        rewrite T, map_app, position_cycle_app, H, I, I1, I; reflexivity. }
      destruct HS as [HS|[_ ->]]; [ | assumption ].
      destruct HS as [G [_ [T [_ [_ [_ [_ [_ I2]]]]]]]].
      assert (I1 : in_position s1 = true).
      { destruct HA as [HA|[_ ->]]; [ | assumption ].
        decompose [and] HA; congruence. }
      rewrite T, map_app, position_cycle_app, H1, I1, I2; reflexivity.
Qed.

Lemma futures_bar_cycle (c : futures_config Q) s bar s' :
  futures_safe s ->
  position_cycle false (map (@f_action Q) (ftrades s))
  = Some (fin_position s) ->
  futures_bar c s bar = Ok s' ->
  position_cycle false (map (@f_action Q) (ftrades s'))
  = Some (fin_position s').
Proof.
  intros Hs H E.
  destruct (bar_cases bar) as [V|[date [price [-> P]]]].
  - destruct bar as [date price].
    rewrite futures_bar_skip in E by assumption; ok_inv E; assumption.
  - destruct (futures_bar_view c date Hs P E) as [s2 [-> HV]].
    cbn [futures_mark ftrades fin_position].
    destruct HV as [[I HO]|[last [s1 [I [L [Pl [HA HS]]]]]]].
    + destruct HO as [T [_ [_ [_ [_ [_ I2]]]]]].
      rewrite T, map_app, position_cycle_app, H, I, I2; reflexivity.
    + assert (H1 : position_cycle false (map (@f_action Q) (ftrades s1))
                   = Some (fin_position s1)).
      { destruct HA as [HA|[_ ->]]; [ | assumption ].
        destruct HA as [_ [T [_ [_ [_ [_ [_ I1]]]]]]].
        rewrite T, map_app, position_cycle_app, H, I, I1, I; reflexivity. }
      destruct HS as [HS|[_ ->]]; [ | assumption ].
      destruct HS as [_ [G [_ [T [_ [_ [_ [_ [_ I2]]]]]]]]].
      assert (I1 : fin_position s1 = true).
      { destruct HA as [HA|[_ ->]]; [ | assumption ].
        decompose [and] HA; congruence. }
      rewrite T, map_app, position_cycle_app, H1, I1, I2; reflexivity.
Qed.

(** X1: the ledger of a run, in either engine, is a sequence of position
    cycles: it starts with a BUY_INIT, a BUY_INIT is followed by BUY_ADDs
    up to a SELL_ALL, and a SELL_ALL by the end of the ledger or a
    BUY_INIT; a position is open at the end of the run exactly when the
    last cycle has no SELL_ALL, so that there are as many BUY_INIT rows as
    SELL_ALL rows, plus one if the position is still open. *)
Theorem ledger_is_a_sequence_of_cycles
        (c : stock_config Q) (fc : futures_config Q)
        (prices : list (Date * option Q)) :
  (forall s,
      backtest_stock_loop c prices = Ok s ->
      position_cycle false (map (@t_action Q) (trades s))
      = Some (in_position s) /\
      (count_action BUY_INIT (map (@t_action Q) (trades s))
       = count_action SELL_ALL (map (@t_action Q) (trades s))
         + (if in_position s then 1 else 0))%nat /\
      (forall a, hd_error (map (@t_action Q) (trades s)) = Some a ->
                 a = BUY_INIT)) /\
  (forall s,
      backtest_futures_loop fc prices = Ok s ->
      position_cycle false (map (@f_action Q) (ftrades s))
      = Some (fin_position s) /\
      (count_action BUY_INIT (map (@f_action Q) (ftrades s))
       = count_action SELL_ALL (map (@f_action Q) (ftrades s))
         + (if fin_position s then 1 else 0))%nat /\
      (forall a, hd_error (map (@f_action Q) (ftrades s)) = Some a ->
                 a = BUY_INIT)).
Proof.
  split; intros s E.
  - assert (H : position_cycle false (map (@t_action Q) (trades s))
                = Some (in_position s)).
    { apply (@stock_loop_invariant c
               (fun s => position_cycle false
                           (map (@t_action Q) (trades s))
                         = Some (in_position s)))
        with (prices := prices); [ reflexivity | | exact E ].
      intros s0 bar s1 S0 H0; apply stock_bar_cycle; assumption. }
    split; [ assumption | split ].
    + pose proof (position_cycle_counts _ _ H) as K; cbn in K; lia.
    + intro a; apply position_cycle_starts with (open' := in_position s).
      assumption.
  - assert (H : position_cycle false (map (@f_action Q) (ftrades s))
                = Some (fin_position s)).
    { apply (@futures_loop_invariant fc
               (fun s => position_cycle false
                           (map (@f_action Q) (ftrades s))
                         = Some (fin_position s)))
        with (prices := prices); [ reflexivity | | exact E ].
      intros s0 bar s1 S0 H0; apply futures_bar_cycle; assumption. }
    split; [ assumption | split ].
    + pose proof (position_cycle_counts _ _ H) as K; cbn in K; lia.
    + intro a; apply position_cycle_starts with (open' := fin_position s).
      assumption.
Qed.

Lemma ledger_is_a_sequence_of_cycles_witness :
  exists s,
    backtest_futures_loop app_futures_config
      [(1%Z, Some 100); (2%Z, Some 95); (3%Z, Some 103); (4%Z, Some 104)]
    = Ok s /\
    position_cycle false (map (@f_action Q) (ftrades s))
    = Some (fin_position s) /\
    map (@f_action Q) (ftrades s) = [BUY_INIT; BUY_ADD; SELL_ALL; BUY_INIT].
Proof.
  eexists; split; [ reflexivity | split; [ | reflexivity ] ].
  apply (proj2 (ledger_is_a_sequence_of_cycles scenario_config
                  app_futures_config
                  [(1%Z, Some 100); (2%Z, Some 95); (3%Z, Some 103);
                   (4%Z, Some 104)])).
  reflexivity.
Defined.

(** ** Cost basis and lots, from the adds of the ledger *)

Lemma adds_since_open_last (actions : list action) (a : action) :
  adds_since_open (actions ++ [a])
  = match a with
    | BUY_ADD => (adds_since_open actions + 1)%Z
    | _ => 0%Z
    end.
Proof. unfold adds_since_open; rewrite fold_left_app; reflexivity. Qed.

Lemma stock_bar_cost (c : stock_config Q) s bar s' :
  stock_safe s ->
  (in_position s = true ->
   position_cost s
   == initial_inr c
      + inject_Z (adds_since_open (map (@t_action Q) (trades s)))
        * add_inr c) ->
  stock_bar c s bar = Ok s' ->
  in_position s' = true ->
  position_cost s'
  == initial_inr c
     + inject_Z (adds_since_open (map (@t_action Q) (trades s')))
       * add_inr c.
Proof.
  intros Hs H E.
  destruct (bar_cases bar) as [V|[date [price [-> P]]]].
  - destruct bar as [date price].
    rewrite stock_bar_skip in E by assumption; ok_inv E; assumption.
  - destruct (stock_bar_view c date Hs P E) as [s2 [-> HV]].
    cbn [stock_mark trades in_position position_cost].
    destruct HV as [[I HO]|[last [s1 [I [L [Pl [HA HS]]]]]]].
    + destruct HO as [T [_ [_ [C _]]]]; intros _.
      rewrite T, C, map_app; cbn [map t_action buy_init_row].
      rewrite adds_since_open_last.
      change (inject_Z 0) with 0; ring.
    + destruct HS as [HS|[_ ->]];
        [ intro C; decompose [and] HS; congruence | ].
      destruct HA as [HA|[_ ->]]; [ | assumption ].
      destruct HA as [_ [T [_ [_ [C _]]]]]; intros _.
      rewrite T, C, map_app; cbn [map t_action buy_add_row].
      rewrite adds_since_open_last.
      rewrite inject_Z_plus, (H I). change (inject_Z 1) with 1; ring.
Qed.

Lemma futures_bar_lots (c : futures_config Q) s bar s' :
  futures_safe s ->
  (fin_position s = true ->
   lots s
   = (initial_lots c
      + adds_since_open (map (@f_action Q) (ftrades s)))%Z) ->
  futures_bar c s bar = Ok s' ->
  fin_position s' = true ->
  lots s'
  = (initial_lots c + adds_since_open (map (@f_action Q) (ftrades s')))%Z.
Proof.
  intros Hs H E.
  destruct (bar_cases bar) as [V|[date [price [-> P]]]].
  - destruct bar as [date price].
    rewrite futures_bar_skip in E by assumption; ok_inv E; assumption.
  - destruct (futures_bar_view c date Hs P E) as [s2 [-> HV]].
    cbn [futures_mark ftrades fin_position lots].
    destruct HV as [[I HO]|[last [s1 [I [L [Pl [HA HS]]]]]]].
    + destruct HO as [T [_ [_ [_ [C _]]]]]; intros _.
      rewrite T, C, map_app; cbn [map f_action fbuy_init_row].
      rewrite adds_since_open_last.
      lia.
    + destruct HS as [HS|[_ ->]];
        [ intro C; decompose [and] HS; congruence | ].
      destruct HA as [HA|[_ ->]]; [ | assumption ].
      destruct HA as [_ [T [_ [_ [_ [C _]]]]]]; intros _.
      rewrite T, C, map_app; cbn [map f_action fbuy_add_row].
      rewrite adds_since_open_last.
      rewrite (H I); lia.
Qed.

(** X2: while a position is open, the cost basis of the stock engine is
    the initial amount plus the add amount times the number of BUY_ADD
    rows the ledger holds since the last BUY_INIT, and the lot count of
    the futures engine is the initial lot count plus that number; this
    for any configuration. *)
Theorem position_is_initial_plus_adds
        (c : stock_config Q) (fc : futures_config Q)
        (prices : list (Date * option Q)) :
  (forall s,
      backtest_stock_loop c prices = Ok s -> in_position s = true ->
      position_cost s
      == initial_inr c
         + inject_Z (adds_since_open (map (@t_action Q) (trades s)))
           * add_inr c) /\
  (forall s,
      backtest_futures_loop fc prices = Ok s -> fin_position s = true ->
      lots s
      = (initial_lots fc
         + adds_since_open (map (@f_action Q) (ftrades s)))%Z).
Proof.
  split; intros s E.
  - apply (@stock_loop_invariant c
             (fun s => in_position s = true ->
                       position_cost s
                       == initial_inr c
                          + inject_Z (adds_since_open
                                        (map (@t_action Q) (trades s)))
                            * add_inr c))
      with (prices := prices); [ discriminate | | exact E ].
    intros s0 bar s1 S0 H0; apply stock_bar_cost; assumption.
  - apply (@futures_loop_invariant fc
             (fun s => fin_position s = true ->
                       lots s
                       = (initial_lots fc
                          + adds_since_open
                              (map (@f_action Q) (ftrades s)))%Z))
      with (prices := prices); [ discriminate | | exact E ].
    intros s0 bar s1 S0 H0; apply futures_bar_lots; assumption.
Qed.

Lemma position_is_initial_plus_adds_witness :
  exists s,
    backtest_stock_loop scenario_config
      [(1%Z, Some 100); (2%Z, Some 97); (3%Z, Some 95)] = Ok s /\
    adds_since_open (map (@t_action Q) (trades s)) = 2%Z /\
    position_cost s == 10000 + inject_Z 2 * 10000.
Proof.
  eexists; split; [ reflexivity | split; [ reflexivity | ] ].
  apply (proj1 (position_is_initial_plus_adds scenario_config
                  app_futures_config
                  [(1%Z, Some 100); (2%Z, Some 97); (3%Z, Some 95)]));
    reflexivity.
Defined.

(** ** When a run returns *)

Lemma map_fst_combine {A B} (l : list A) (l' : list B) :
  length l = length l' -> map fst (combine l l') = l.
Proof.
  revert l'; induction l as [|a l IH]; intros [|b l'] E;
    try discriminate; [ reflexivity | ].
  cbn; f_equal; apply IH; injection E; auto.
Qed.

Lemma map_snd_combine {A B} (l : list A) (l' : list B) :
  length l = length l' -> map snd (combine l l') = l'.
Proof.
  revert l'; induction l as [|a l IH]; intros [|b l'] E;
    try discriminate; [ reflexivity | ].
  cbn; f_equal; apply IH; injection E; auto.
Qed.

Lemma all_valid_or_not (prices : list (Date * option Q)) :
  all_valid prices \/
  exists bar, In bar prices /\ invalid (snd bar) = true.
Proof.
  induction prices as [|bar prices IH]; [ left; intros b [] | ].
  destruct (invalid (snd bar)) eqn:V.
  - right; exists bar; split; [ left; reflexivity | assumption ].
  - destruct IH as [A|[b [Hb Vb]]].
    + left; intros b [<-|Hb]; [ assumption | apply A; assumption ].
    + right; exists b; split; [ right; assumption | assumption ].
Qed.

Lemma skipped_bar_shortens (prices : list (Date * option Q)) bar :
  In bar prices -> invalid (snd bar) = true ->
  (length (valid_bars prices) < length prices)%nat.
Proof.
  unfold valid_bars.
  induction prices as [|b prices IH];
    [ intros [] | intros [<-|Hb] V; cbn [filter length] ].
  - rewrite V; cbn [negb].
    pose proof (filter_length_le
                  (fun bar : Date * option Q => negb (invalid (snd bar)))
                  prices); lia.
  - specialize (IH Hb V).
    destruct (negb (invalid (snd b))); cbn [length]; lia.
Qed.

Lemma stock_run_outcome (c : stock_config Q) prices :
  exists s,
    backtest_stock_loop c prices = Ok s /\
    length (equity s) = length (valid_bars prices) /\
    backtest_stock c prices = (curve <- pd_Series (equity s) (map fst prices) ;;
                               Ok (trades s, curve)).
Proof.
  destruct (backtest_stock_loop_total c prices) as [s [E _]].
  exists s; split; [ assumption | split ].
  - apply (stock_loop_equity_length c prices stock_init E).
  - unfold backtest_stock; rewrite E; reflexivity.
Qed.

Lemma futures_run_outcome (c : futures_config Q) prices :
  ~ lot_value c == 0 ->
  exists s,
    backtest_futures_loop c prices = Ok s /\
    length (fequity s) = length (valid_bars prices) /\
    backtest_futures c prices
    = (curve <- pd_Series (fequity s) (map fst prices) ;;
       Ok (ftrades s, curve)).
Proof.
  intro Hv.
  destruct (backtest_futures_loop_total c prices Hv) as [s [E _]].
  exists s; split; [ assumption | split ].
  - apply (futures_loop_equity_length c prices futures_init E).
  - unfold backtest_futures; rewrite E; reflexivity.
Qed.

(** X3: whatever its configuration, a stock run returns if and only if
    no bar of the series has a missing or non-positive price, and then its
    curve is dated by the index of the series; a single such bar, wherever
    it is, makes the run raise [ValueError].  The same holds of a futures
    run for a lot value other than 0. *)
Theorem run_returns_iff_no_bar_is_skipped
        (c : stock_config Q) (fc : futures_config Q)
        (prices : list (Date * option Q)) :
  (all_valid prices ->
   exists ledger curve,
     backtest_stock c prices = Ok (ledger, curve) /\
     map fst curve = map fst prices) /\
  ((exists bar, In bar prices /\ invalid (snd bar) = true) ->
   backtest_stock c prices = Raise ValueError) /\
  (~ lot_value fc == 0 ->
   (all_valid prices ->
    exists ledger curve,
      backtest_futures fc prices = Ok (ledger, curve) /\
      map fst curve = map fst prices) /\
   ((exists bar, In bar prices /\ invalid (snd bar) = true) ->
    backtest_futures fc prices = Raise ValueError)).
Proof.
  destruct (stock_run_outcome c prices) as [s [E [L R]]].
  split; [ | split ].
  - intro A. rewrite all_valid_bars in L by assumption.
    rewrite R, pd_Series_same_length by (rewrite length_map; assumption).
    do 2 eexists; split; [ reflexivity | ].
    apply map_fst_combine; rewrite length_map; auto.
  - intros [bar [Hb V]].
    pose proof (skipped_bar_shortens prices bar Hb V) as Lt.
    rewrite R, pd_Series_mismatch by (rewrite length_map; lia).
    reflexivity.
  - intro Hv.
    destruct (futures_run_outcome fc prices Hv) as [fs [FE [FL FR]]].
    split.
    + intro A. rewrite all_valid_bars in FL by assumption.
      rewrite FR, pd_Series_same_length by (rewrite length_map; assumption).
      do 2 eexists; split; [ reflexivity | ].
      apply map_fst_combine; rewrite length_map; auto.
    + intros [bar [Hb V]].
      pose proof (skipped_bar_shortens prices bar Hb V) as Lt.
      rewrite FR, pd_Series_mismatch by (rewrite length_map; lia).
      reflexivity.
Qed.

Lemma run_returns_iff_no_bar_is_skipped_witness :
  backtest_stock scenario_config
    [(1%Z, Some 100); (2%Z, Some 97); (3%Z, Some 0); (4%Z, Some 102)]
  = Raise ValueError.
Proof.
  apply (proj1 (proj2 (run_returns_iff_no_bar_is_skipped scenario_config
                         app_futures_config
                         [(1%Z, Some 100); (2%Z, Some 97); (3%Z, Some 0);
                          (4%Z, Some 102)]))).
  exists (3%Z, Some 0); split; [ cbn; tauto | reflexivity ].
Defined.

(** ** A lot value of zero *)

Lemma stock_loop_valid_bars (c : stock_config Q) prices :
  forall s, for_each (stock_bar c) prices s
            = for_each (stock_bar c) (valid_bars prices) s.
Proof.
  unfold valid_bars.
  induction prices as [|[date price] prices IH]; intro s; [ reflexivity | ].
  cbn [filter snd]. destruct (invalid price) eqn:V; cbn [negb for_each].
  - rewrite stock_bar_skip by assumption; cbn [bind]; apply IH.
  - destruct (stock_bar c s (date, price)); cbn [bind]; auto.
Qed.

Lemma futures_loop_valid_bars (c : futures_config Q) prices :
  forall s, for_each (futures_bar c) prices s
            = for_each (futures_bar c) (valid_bars prices) s.
Proof.
  unfold valid_bars.
  induction prices as [|[date price] prices IH]; intro s; [ reflexivity | ].
  cbn [filter snd]. destruct (invalid price) eqn:V; cbn [negb for_each].
  - rewrite futures_bar_skip by assumption; cbn [bind]; apply IH.
  - destruct (futures_bar c s (date, price)); cbn [bind]; auto.
Qed.

Lemma valid_bars_are_valid (prices : list (Date * option Q)) bar :
  In bar (valid_bars prices) ->
  exists date price, bar = (date, Some price) /\ 0 < price.
Proof.
  intro H; apply filter_In in H; destruct H as [_ V].
  apply negb_true_iff in V.
  destruct (bar_cases bar) as [N|H]; [ congruence | assumption ].
Qed.

Lemma futures_held_bar_raises (c : futures_config Q) s date price :
  lot_value c == 0 -> futures_safe s ->
  fin_position s = true -> (0 < lots s)%Z -> 0 < price ->
  futures_bar c s (date, Some price) = Raise ZeroDivisionError.
Proof.
  intros Z Hs I G P.
  unfold futures_bar; rewrite (proj2 (invalid_Some price) P).
  cbn [number bind]; rewrite I; cbn [negb].
  destruct (Hs I) as [last [L Pl]].
  destruct (futures_add_spec c s date price L Pl) as [s1 [E1 H1]].
  rewrite E1; cbn [bind].
  rewrite futures_sell_zero_lot_value; [ reflexivity | assumption | ].
  destruct H1 as [H1|[_ ->]]; [ | assumption ].
  destruct H1 as [_ [_ [_ [_ [_ [-> _]]]]]]; lia.
Qed.

(** X4: with a lot value of 0 and a positive initial lot count, the
    futures engine returns on a series with at most one valid bar and
    raises [ZeroDivisionError] on every series with two or more: the
    average entry price of line 129 divides by [lots * lot_value] on the
    first valid bar that finds the position open. *)
Theorem zero_lot_value_raises (c : futures_config Q)
        (prices : list (Date * option Q)) :
  lot_value c == 0 -> (0 < initial_lots c)%Z ->
  ((length (valid_bars prices) <= 1)%nat ->
   exists s, backtest_futures_loop c prices = Ok s) /\
  ((2 <= length (valid_bars prices))%nat ->
   backtest_futures_loop c prices = Raise ZeroDivisionError /\
   backtest_futures c prices = Raise ZeroDivisionError).
Proof.
  intros Z Hl.
  unfold backtest_futures, backtest_futures_loop.
  rewrite futures_loop_valid_bars.
  pose proof (valid_bars_are_valid prices) as V.
  destruct (valid_bars prices) as [|b1 [|b2 rest]]; cbn [length].
  - split; [ intros _; cbn; eauto | lia ].
  - split; [ intros _ | lia ].
    destruct (V b1 (or_introl eq_refl)) as [d1 [p1 [-> P1]]].
    destruct (futures_first_bar_opens c d1 P1) as [s1 [E1 _]].
    cbn [for_each]; rewrite E1; cbn [bind]; eauto.
  - split; [ lia | intros _ ].
    destruct (V b1 (or_introl eq_refl)) as [d1 [p1 [-> P1]]].
    destruct (V b2 (or_intror (or_introl eq_refl))) as [d2 [p2 [-> P2]]].
    destruct (futures_first_bar_opens c d1 P1) as [s1 [E1 [S1 _]]].
    destruct (futures_bar_view c d1 futures_init_safe P1 E1)
      as [s2 [-> [[_ HO]|[last [s0 [I _]]]]]]; [ | discriminate ].
    destruct HO as [_ [_ [_ [_ [Lo [_ I2]]]]]].
    cbn [for_each]; rewrite E1; cbn [bind].
    rewrite futures_held_bar_raises;
      [ split; reflexivity | assumption | assumption | | | assumption ].
    + cbn [futures_mark fin_position]; assumption.
    + cbn [futures_mark lots]; rewrite Lo; assumption.
Qed.

Lemma zero_lot_value_raises_witness :
  backtest_futures
    {| initial_lots := 1; add_lot_every_drop := 2; fprofit_pct := 5;
       lot_value := 0 |}
    [(1%Z, Some 100); (2%Z, None); (3%Z, Some 101)]
  = Raise ZeroDivisionError.
Proof.
  apply (zero_lot_value_raises
           {| initial_lots := 1; add_lot_every_drop := 2; fprofit_pct := 5;
              lot_value := 0 |}
           [(1%Z, Some 100); (2%Z, None); (3%Z, Some 101)]);
    [ reflexivity | reflexivity | cbn; lia ].
Defined.

(** ** The rows of the ledger and the bars of the series *)

Lemma sorted_with_repeats (T D N : list Z) (d : Z) :
  StronglySorted Z.le (T ++ d :: D) -> Forall (eq d) N ->
  StronglySorted Z.le ((T ++ N) ++ D).
Proof.
  intros S F; rewrite <- app_assoc.
  induction T as [|a T IH]; cbn [app] in *.
  - inversion S as [|x l SD FD]; subst.
    induction F as [|x N <- F IHN]; cbn [app]; [ assumption | ].
    constructor; [ assumption | ].
    apply Forall_app; split; [ | assumption ].
    revert F; apply Forall_impl; intros y <-; apply Z.le_refl.
  - inversion S as [|x l ST FT]; subst.
    constructor; [ apply IH; assumption | ].
    apply Forall_app in FT; destruct FT as [FT FD].
    inversion FD as [|x l Ld FD']; subst.
    apply Forall_app; split; [ assumption | ].
    apply Forall_app; split; [ | assumption ].
    revert F; apply Forall_impl; intros y <-; assumption.
Qed.

Lemma stock_bar_rows (c : stock_config Q) s bar s' :
  stock_safe s -> stock_bar c s bar = Ok s' ->
  exists new, trades s' = trades s ++ new /\
    Forall (fun t => t_date t = fst bar /\
                     exists price, snd bar = Some price /\ 0 < price /\
                                   t_price t = round price 2) new /\
    (length new <= 2)%nat.
Proof.
  intros Hs E.
  destruct (bar_cases bar) as [V|[date [price [-> P]]]].
  - destruct bar as [date price].
    rewrite stock_bar_skip in E by assumption; ok_inv E.
    exists []; repeat split; [ symmetry; apply app_nil_r | constructor
                             | cbn; lia ].
  - assert (R : forall t,
               t_date t = date /\ t_price t = round price 2 ->
               t_date t = fst (date, Some price) /\
               exists p, snd (date, Some price) = Some p /\ 0 < p /\
                         t_price t = round p 2)
      by (intros t [D Rd]; split;
          [ assumption | exists price; repeat split; assumption ]).
    destruct (stock_bar_view c date Hs P E) as [s2 [-> HV]].
    cbn [stock_mark trades].
    destruct HV as [[I HO]|[last [s1 [I [L [Pl [HA HS]]]]]]].
    + destruct HO as [T _].
      exists [buy_init_row c date price]; repeat split;
        [ assumption | | cbn; lia ].
      repeat constructor; apply R; split; reflexivity.
    + assert (A1 : exists n1, trades s1 = trades s ++ n1 /\
                   Forall (fun t => t_date t = date /\
                                    t_price t = round price 2) n1 /\
                   (length n1 <= 1)%nat).
      { destruct HA as [HA|[_ ->]].
        - destruct HA as [_ [T _]].
          exists [buy_add_row c date price]; repeat split;
            [ assumption | | cbn; lia ].
          repeat constructor.
        - exists []; repeat split;
            [ symmetry; apply app_nil_r | constructor | cbn; lia ]. }
      destruct A1 as [n1 [T1 [F1 L1]]].
      destruct HS as [HS|[_ ->]].
      * destruct HS as [_ [_ [T2 _]]].
        exists (n1 ++ [sell_all_row s1 date price]); repeat split.
        -- rewrite T2, T1, <- app_assoc; reflexivity.
        -- apply Forall_app; split.
           ++ revert F1; apply Forall_impl; exact R.
           ++ repeat constructor; apply R; split; reflexivity.
        -- rewrite length_app; cbn [length]; lia.
      * exists n1; repeat split; [ assumption | | lia ].
        revert F1; apply Forall_impl; exact R.
Qed.

Lemma futures_bar_rows (c : futures_config Q) s bar s' :
  futures_safe s -> futures_bar c s bar = Ok s' ->
  exists new, ftrades s' = ftrades s ++ new /\
    Forall (fun t => f_date t = fst bar /\
                     exists price, snd bar = Some price /\ 0 < price /\
                                   f_price t = round price 2) new /\
    (length new <= 2)%nat.
Proof.
  intros Hs E.
  destruct (bar_cases bar) as [V|[date [price [-> P]]]].
  - destruct bar as [date price].
    rewrite futures_bar_skip in E by assumption; ok_inv E.
    exists []; repeat split; [ symmetry; apply app_nil_r | constructor
                             | cbn; lia ].
  - assert (R : forall t,
               f_date t = date /\ f_price t = round price 2 ->
               f_date t = fst (date, Some price) /\
               exists p, snd (date, Some price) = Some p /\ 0 < p /\
                         f_price t = round p 2)
      by (intros t [D Rd]; split;
          [ assumption | exists price; repeat split; assumption ]).
    destruct (futures_bar_view c date Hs P E) as [s2 [-> HV]].
    cbn [futures_mark ftrades].
    destruct HV as [[I HO]|[last [s1 [I [L [Pl [HA HS]]]]]]].
    + destruct HO as [T _].
      exists [fbuy_init_row c date price]; repeat split;
        [ assumption | | cbn; lia ].
      repeat constructor; apply R; split; reflexivity.
    + assert (A1 : exists n1, ftrades s1 = ftrades s ++ n1 /\
                   Forall (fun t => f_date t = date /\
                                    f_price t = round price 2) n1 /\
                   (length n1 <= 1)%nat).
      { destruct HA as [HA|[_ ->]].
        - destruct HA as [_ [T _]].
          exists [fbuy_add_row c s date price]; repeat split;
            [ assumption | | cbn; lia ].
          repeat constructor.
        - exists []; repeat split;
            [ symmetry; apply app_nil_r | constructor | cbn; lia ]. }
      destruct A1 as [n1 [T1 [F1 L1]]].
      destruct HS as [HS|[_ ->]].
      * destruct HS as [_ [_ [_ [T2 _]]]].
        exists (n1 ++ [fsell_all_row c s1 date price]); repeat split.
        -- rewrite T2, T1, <- app_assoc; reflexivity.
        -- apply Forall_app; split.
           ++ revert F1; apply Forall_impl; exact R.
           ++ repeat constructor; apply R; split; reflexivity.
        -- rewrite length_app; cbn [length]; lia.
      * exists n1; repeat split; [ assumption | | lia ].
        revert F1; apply Forall_impl; exact R.
Qed.

Lemma stock_loop_rows (c : stock_config Q) prices :
  forall s s',
    stock_safe s -> for_each (stock_bar c) prices s = Ok s' ->
    (forall t, In t (trades s') ->
       In t (trades s) \/
       exists price, In (t_date t, Some price) prices /\ 0 < price /\
                     t_price t = round price 2) /\
    (StronglySorted Z.le (map (@t_date Q) (trades s) ++ map fst prices) ->
     StronglySorted Z.le (map (@t_date Q) (trades s'))).
Proof.
  induction prices as [|[date oprice] prices IH]; cbn [for_each];
    intros s s' Hs E.
  - ok_inv E; split; [ auto | ].
    cbn [map]; rewrite app_nil_r; auto.
  - bind_inv E.
    destruct (stock_bar_total c (date, oprice) Hs) as [s1 [E1 S1]].
    rewrite E1 in Hm; ok_inv Hm.
    destruct (stock_bar_rows c (date, oprice) Hs E1) as [new [T [F _]]].
    destruct (IH _ _ S1 E) as [IH1 IH2]; split.
    + intros t Ht. destruct (IH1 t Ht) as [H|[price [H [P Rd]]]].
      * rewrite T in H; apply in_app_or in H; destruct H as [H|H]; auto.
        right. rewrite Forall_forall in F.
        destruct (F t H) as [D [price [Sn [P Rd]]]].
        cbn [fst snd] in D, Sn; subst oprice.
        exists price; rewrite D; split; [ left; reflexivity | auto ].
      * right; exists price; split; [ right; assumption | auto ].
    + intro St; apply IH2.
      rewrite T, map_app. cbn [map fst] in St.
      apply sorted_with_repeats with (d := date); [ assumption | ].
      rewrite Forall_map. revert F; apply Forall_impl.
      intros t [D _]; symmetry; exact D.
Qed.

Lemma futures_loop_rows (c : futures_config Q) prices :
  forall s s',
    futures_safe s -> for_each (futures_bar c) prices s = Ok s' ->
    (forall t, In t (ftrades s') ->
       In t (ftrades s) \/
       exists price, In (f_date t, Some price) prices /\ 0 < price /\
                     f_price t = round price 2) /\
    (StronglySorted Z.le (map (@f_date Q) (ftrades s) ++ map fst prices) ->
     StronglySorted Z.le (map (@f_date Q) (ftrades s'))).
Proof.
  induction prices as [|[date oprice] prices IH]; cbn [for_each];
    intros s s' Hs E.
  - ok_inv E; split; [ auto | ].
    cbn [map]; rewrite app_nil_r; auto.
  - bind_inv E.
    pose proof (futures_bar_safe c (date, oprice) Hs Hm) as S1.
    destruct (futures_bar_rows c (date, oprice) Hs Hm) as [new [T [F _]]].
    destruct (IH _ _ S1 E) as [IH1 IH2]; split.
    + intros t Ht. destruct (IH1 t Ht) as [H|[price [H [P Rd]]]].
      * rewrite T in H; apply in_app_or in H; destruct H as [H|H]; auto.
        right. rewrite Forall_forall in F.
        destruct (F t H) as [D [price [Sn [P Rd]]]].
        cbn [fst snd] in D, Sn; subst oprice.
        exists price; rewrite D; split; [ left; reflexivity | auto ].
      * right; exists price; split; [ right; assumption | auto ].
    + intro St; apply IH2.
      rewrite T, map_app. cbn [map fst] in St.
      apply sorted_with_repeats with (d := date); [ assumption | ].
      rewrite Forall_map. revert F; apply Forall_impl.
      intros t [D _]; symmetry; exact D.
Qed.

(** X5: every row of the ledger is dated by a valid bar of the series and
    records the price of that bar, rounded to two decimals; a bar gives at
    most two rows; and over a series whose dates are in non-decreasing
    order the dates of the ledger are in non-decreasing order as well.
    This for both engines and any configuration. *)
Theorem ledger_rows_follow_the_bars
        (c : stock_config Q) (fc : futures_config Q)
        (prices : list (Date * option Q)) :
  (forall s,
      backtest_stock_loop c prices = Ok s ->
      (forall t, In t (trades s) ->
         exists price, In (t_date t, Some price) prices /\ 0 < price /\
                       t_price t = round price 2) /\
      (StronglySorted Z.le (map fst prices) ->
       StronglySorted Z.le (map (@t_date Q) (trades s)))) /\
  (forall s,
      backtest_futures_loop fc prices = Ok s ->
      (forall t, In t (ftrades s) ->
         exists price, In (f_date t, Some price) prices /\ 0 < price /\
                       f_price t = round price 2) /\
      (StronglySorted Z.le (map fst prices) ->
       StronglySorted Z.le (map (@f_date Q) (ftrades s)))).
Proof.
  split; intros s E.
  - destruct (stock_loop_rows c prices stock_init_safe E) as [H1 H2].
    split; [ | exact H2 ].
    intros t Ht; destruct (H1 t Ht) as [[]|H]; exact H.
  - destruct (futures_loop_rows fc prices futures_init_safe E) as [H1 H2].
    split; [ | exact H2 ].
    intros t Ht; destruct (H1 t Ht) as [[]|H]; exact H.
Qed.

Lemma ledger_rows_follow_the_bars_witness :
  exists s,
    backtest_stock_loop eager_config [(1%Z, Some 100); (2%Z, Some 200)]
    = Ok s /\
    map (@t_date Q) (trades s) = [1; 2; 2]%Z /\
    StronglySorted Z.le (map (@t_date Q) (trades s)).
Proof.
  destruct (backtest_stock_loop_total eager_config
              [(1%Z, Some 100); (2%Z, Some 200)]) as [s [E _]].
  exists s; split; [ exact E | ].
  destruct (proj1 (ledger_rows_follow_the_bars eager_config
                     app_futures_config
                     [(1%Z, Some 100); (2%Z, Some 200)]) s E) as [_ H].
  split; [ | apply H; cbn; repeat (constructor; try lia) ].
  vm_compute in E; ok_inv E; reflexivity.
Defined.

(** ** What a sale at the target gains, in exact arithmetic *)

Lemma target_gain_share (cost size profit price : Q) :
  0 < size -> target (cost / size) profit <= price ->
  (1 # 100) * (cost * profit) <= price * size - cost.
Proof.
  intros G T; unfold target in T.
  assert (A : cost / size * size == cost)
    by (field; intro Z; rewrite Z in G; discriminate).
  set (a := cost / size) in *.
  assert (M : a * (1 + profit / 100) * size <= price * size)
    by (apply Qmult_le_compat_r; [ assumption | apply Qlt_le_weak; assumption ]).
  assert (R : a * (1 + profit / 100) * size
              == cost + (1 # 100) * (cost * profit)).
  { setoid_replace (a * (1 + profit / 100) * size)
      with ((a * size) * (1 + profit / 100)) by ring.
    rewrite A; field. }
  rewrite R in M. clear - M. lra.
Qed.

(** ** How far the recorded figures are from the computed ones *)

Lemma round_half_even_error (q : Q) :
  Qabs (inject_Z (round_half_even q) - q) <= 1 # 2.
Proof.
  unfold round_half_even.
  pose proof (Qfloor_le q) as Lo. pose proof (Qlt_floor q) as Hi.
  rewrite inject_Z_plus in Hi. change (inject_Z 1) with 1 in Hi.
  apply Qabs_Qle_condition.
  destruct (q - inject_Z (Qfloor q) ?= 1 # 2) eqn:C.
  - apply Qeq_alt in C.
    destruct (Z.even (Qfloor q));
      [ | rewrite inject_Z_plus; change (inject_Z 1) with 1 ];
      split; lra.
  - apply Qlt_alt in C; split; lra.
  - apply Qgt_alt in C.
    rewrite inject_Z_plus; change (inject_Z 1) with 1; split; lra.
Qed.

Lemma round_error (x : Q) (n : Z) :
  (0 <= n)%Z ->
  Qabs (round x n - x) <= (1 # 2) / inject_Z (10 ^ n).
Proof.
  intro Hn; cbn [round Q_number]; unfold Qround_ndigits.
  set (T := inject_Z (10 ^ n)).
  assert (TP : 0 < T).
  { unfold T; change 0 with (inject_Z 0); rewrite <- Zlt_Qlt.
    apply Z.pow_pos_nonneg; lia. }
  assert (NZ : ~ T == 0) by (intro Z; rewrite Z in TP; discriminate).
  pose proof (round_half_even_error (x * T)) as E.
  set (k := inject_Z (round_half_even (x * T))) in *.
  apply Qabs_Qle_condition in E; destruct E as [E1 E2].
  apply Qabs_Qle_condition.
  assert (I : 0 < / T) by (apply Qinv_lt_0_compat; assumption).
  assert (K : k * / T - x == (k - x * T) * / T) by (field; assumption).
  assert (H1 : (k - x * T) * / T <= (1 # 2) * / T)
    by (apply Qmult_le_compat_r; [ assumption | apply Qlt_le_weak; assumption ]).
  assert (H2 : - (1 # 2) * / T <= (k - x * T) * / T)
    by (apply Qmult_le_compat_r; [ assumption | apply Qlt_le_weak; assumption ]).
  unfold Qdiv; clearbody k T.
  set (u := / T) in *; set (e := (k - x * T) * u) in *.
  split; rewrite K; lra.
Qed.

Lemma truediv_Ok (x y q : Q) :
  truediv x y = Ok q -> ~ y == 0 /\ q = x / y.
Proof.
  unfold truediv; cbn [is_zero quot Q_number].
  destruct (Qeq_bool y 0) eqn:E; [ discriminate | ].
  intro H; ok_inv H; split; [ | reflexivity ].
  intro Z; apply Qeq_bool_iff in Z; congruence.
Qed.

Lemma round_2_error (x : Q) : Qabs (round x 2 - x) <= 1 # 200.
Proof.
  eapply Qle_trans; [ apply round_error; lia | discriminate ].
Qed.

Lemma round_4_error (x : Q) : Qabs (round x 4 - x) <= 1 # 20000.
Proof.
  eapply Qle_trans; [ apply round_error; lia | discriminate ].
Qed.

(** X10: the figures of the stock ledger are those the engine computed,
    rounded: the price of a row is within 0.005 of the price of the bar
    that dates it, the [pnl] of a SELL_ALL row within 0.005 of the profit
    the sale added to the running realized P/L, and the [shares] of a
    BUY_ADD row within 0.00005 of the shares the add bought. *)
Theorem ledger_figures_are_rounded (c : stock_config Q) :
  (forall prices s,
      backtest_stock_loop c prices = Ok s ->
      forall t, In t (trades s) ->
        exists price, In (t_date t, Some price) prices /\
                      Qabs (t_price t - price) <= 1 # 200) /\
  (forall s date price s',
      stock_sell c s date price = Ok s' ->
      s' = s \/
      exists row v,
        trades s' = trades s ++ [row] /\ t_pnl row = Some v /\
        Qabs (v - (realized_pnl s' - realized_pnl s)) <= 1 # 200) /\
  (forall s date price s',
      stock_add c s date price = Ok s' ->
      s' = s \/
      exists row,
        trades s' = trades s ++ [row] /\
        Qabs (t_shares row - (position_shares s' - position_shares s))
        <= 1 # 20000).
Proof.
  split; [ | split ].
  - intros prices s E t Ht.
    destruct (stock_loop_rows c prices stock_init_safe E) as [H _].
    destruct (H t Ht) as [[]|[price [Hb [_ ->]]]].
    exists price; split; [ assumption | apply round_2_error ].
  - intros s date price s' E.
    destruct (stock_sell_spec c s date price) as [s1 [E1 H1]].
    rewrite E1 in E; ok_inv E.
    destruct H1 as [H1|[_ ->]]; [ right | left; reflexivity ].
    destruct H1 as [_ [_ [T [_ [R _]]]]].
    exists (sell_all_row s date price); eexists.
    split; [ exact T | split; [ reflexivity | ] ].
    assert (K : realized_pnl s' - realized_pnl s
                == price * position_shares s - position_cost s)
      by (rewrite R; ring).
    rewrite K; apply round_2_error.
  - intros s date price s' E.
    unfold stock_add in E; bind_inv E; bind_inv E.
    destruct (leb _ _); [ | ok_inv E; left; reflexivity ].
    bind_inv E; ok_inv E; right.
    apply truediv_Ok in Hm1; destruct Hm1 as [_ ->].
    eexists; split; [ reflexivity | ].
    cbn [t_shares position_shares add Q_number].
    assert (K : position_shares s + add_inr c / price - position_shares s
                == add_inr c / price) by ring.
    rewrite K; apply round_4_error.
Qed.

Lemma ledger_figures_are_rounded_witness :
  exists s,
    backtest_stock_loop scenario_config
      [(1%Z, Some (100003 # 1000)); (2%Z, Some 97)] = Ok s /\
    forall t, In t (trades s) ->
      exists price,
        In (t_date t, Some price)
           [(1%Z, Some (100003 # 1000)); (2%Z, Some 97)] /\
        Qabs (t_price t - price) <= 1 # 200.
Proof.
  destruct (backtest_stock_loop_total scenario_config
              [(1%Z, Some (100003 # 1000)); (2%Z, Some 97)]) as [s [E _]].
  exists s; split; [ exact E | ].
  exact (proj1 (ledger_figures_are_rounded scenario_config) _ s E).
Defined.

(** ** The figures the application shows *)

Lemma iloc_last_None {A : Type} `{Number A} (curve : list (Date * A)) :
  iloc_last curve = None <-> curve = [].
Proof.
  split; [ | intros ->; reflexivity ].
  induction curve as [|p [|q rest] IH]; cbn [iloc_last];
    [ reflexivity | discriminate | ].
  intro E; apply IH in E; discriminate.
Qed.

Lemma dropna_Q (close : list (Date * option Q)) :
  forall row, In row (dropna close) <-> In row close /\ snd row <> None.
Proof.
  intro row; unfold dropna; rewrite filter_In.
  destruct (snd row); cbn [isna Q_number negb]; split; intros [H1 H2];
    split; try assumption; try discriminate; congruence.
Qed.

Lemma win_rate_of_returns (pnl : list (option Q)) :
  exists rate, win_rate_of pnl = Ok rate.
Proof.
  unfold win_rate_of.
  destruct (existsb has_value pnl); [ | eauto ].
  destruct (filter notna pnl) as [|cell completed] eqn:C; [ eauto | ].
  rewrite truediv_ok; [ cbn [bind]; eauto | ].
  cbn [of_int Q_number length].
  intro Z. assert (L : inject_Z 0 < inject_Z (Z.of_nat (S (length completed))))
    by (rewrite <- Zlt_Qlt; lia).
  rewrite Z in L; discriminate.
Qed.

Lemma all_wins (pnl : list (option Q)) :
  (forall v, In (Some v) pnl -> 0 < v) ->
  filter is_win (filter notna pnl) = filter notna pnl.
Proof.
  induction pnl as [|[v|] pnl IH]; intro G; [ reflexivity | | ].
  - assert (W : is_win (Some v) = true)
      by (apply ltb_Q; apply G; left; reflexivity).
    cbn [filter notna isna Q_number negb].
    rewrite W; f_equal; apply IH; intros x Hx; apply G; right; assumption.
  - cbn [filter notna]; apply IH; intros x Hx; apply G; right; assumption.
Qed.

Lemma win_rate_of_gains (pnl : list (option Q)) :
  (forall v, In (Some v) pnl -> 0 < v) ->
  win_rate_of pnl = Ok None \/
  exists rate, win_rate_of pnl = Ok (Some rate) /\ rate == 100.
Proof.
  intro G; unfold win_rate_of.
  destruct (existsb has_value pnl); [ | left; reflexivity ].
  rewrite (all_wins pnl G).
  destruct (filter notna pnl) as [|cell completed]; [ left; reflexivity | ].
  right.
  assert (NZ : ~ inject_Z (Z.of_nat (length (cell :: completed))) == 0).
  { cbn [length]; intro Z.
    assert (L : inject_Z 0 < inject_Z (Z.of_nat (S (length completed))))
      by (rewrite <- Zlt_Qlt; lia).
    rewrite Z in L; discriminate. }
  rewrite truediv_ok by exact NZ.
  cbn [bind]; eexists; split; [ reflexivity | ].
  cbn [mul of_int Q_number]. change (inject_Z 100) with 100.
  field; exact NZ.
Qed.

Lemma run_engine_all_valid (m : mode) (w : stock_config Q) prices :
  all_valid prices ->
  exists pnl curve,
    run_engine m w prices = Ok (pnl, curve) /\
    length curve = length prices /\
    (m = Stock ->
     exists s, backtest_stock_loop w prices = Ok s /\
               pnl = map (@t_pnl Q) (trades s)).
Proof.
  intro A; destruct m; unfold run_engine.
  - destruct (stock_run_outcome w prices) as [s [E [L R]]].
    rewrite all_valid_bars in L by assumption.
    rewrite R, pd_Series_same_length by (rewrite length_map; assumption).
    cbn [bind fst snd]. do 2 eexists; split; [ reflexivity | split ].
    + rewrite length_combine, length_map, L; apply Nat.min_id.
    + intros _; exists s; split; [ assumption | reflexivity ].
  - match goal with |- context [backtest_futures ?c prices] =>
      destruct (futures_run_outcome c prices) as [s [E [L R]]];
        [ discriminate | ]
    end.
    rewrite all_valid_bars in L by assumption.
    rewrite R, pd_Series_same_length by (rewrite length_map; assumption).
    cbn [bind fst snd]. do 2 eexists; split; [ reflexivity | split ].
    + rewrite length_combine, length_map, L; apply Nat.min_id.
    + discriminate.
Qed.

Lemma run_engine_skipped_bar (m : mode) (w : stock_config Q) prices bar :
  In bar prices -> invalid (snd bar) = true ->
  run_engine m w prices = Raise ValueError.
Proof.
  intros Hb V.
  pose proof (skipped_bar_shortens prices bar Hb V) as Lt.
  destruct m; unfold run_engine.
  - destruct (stock_run_outcome w prices) as [s [E [L R]]].
    rewrite R, pd_Series_mismatch by (rewrite length_map; lia).
    reflexivity.
  - match goal with |- context [backtest_futures ?c prices] =>
      destruct (futures_run_outcome c prices) as [s [E [L R]]];
        [ discriminate | ]
    end.
    rewrite R, pd_Series_mismatch by (rewrite length_map; lia).
    reflexivity.
Qed.

(** X11: what a press of the button leads to, in either mode, for an
    initial amount other than 0.  An empty table gives the "no data"
    message; a table whose Close values are all missing leaves an empty
    series, an empty curve, and the [IndexError] of [equity.iloc[-1]]; a
    Close value that is zero or negative gives the [ValueError] of the
    engines; in every other case the four figures are shown. *)
Theorem show_results_outcomes (m : mode) (w : stock_config Q)
        (close : list (Date * option Q)) :
  ~ initial_inr w == 0 ->
  (close = [] -> show_results m w close = NoData) /\
  (close <> [] -> (forall row, In row close -> snd row = None) ->
   show_results m w close = Failed IndexError) /\
  ((exists date price, In (date, Some price) close /\ price <= 0) ->
   show_results m w close = Failed (Python ValueError)) /\
  ((exists row, In row close /\ snd row <> None) ->
   (forall date price, In (date, Some price) close -> 0 < price) ->
   exists figures, show_results m w close = Shown figures).
Proof.
  intro Hi; split; [ intros ->; reflexivity | split; [ | split ] ].
  - intros Ne Hn.
    assert (D : dropna close = []).
    { destruct (dropna close) as [|row rest] eqn:D; [ reflexivity | ].
      assert (Hr : In row (dropna close)) by (rewrite D; left; reflexivity).
      apply dropna_Q in Hr; destruct Hr as [Hr N].
      exfalso; apply N; apply Hn; assumption. }
    destruct close as [|r0 close]; [ contradiction | ].
    unfold show_results; rewrite D.
    destruct m; reflexivity.
  - intros [date [price [Hr Le]]].
    assert (Hd : In (date, Some price) (dropna close))
      by (apply dropna_Q; split; [ assumption | discriminate ]).
    destruct close as [|r0 close]; [ destruct Hr | ].
    unfold show_results.
    rewrite (run_engine_skipped_bar m w (dropna (r0 :: close))
               (date, Some price) Hd);
      [ reflexivity | apply invalid_Some_true; assumption ].
  - intros [row [Hr N]] Pos.
    assert (A : all_valid (dropna close)).
    { intros [d [p|]] Hb; apply dropna_Q in Hb; destruct Hb as [Hb Nb].
      - apply invalid_Some; apply (Pos d); assumption.
      - exfalso; apply Nb; reflexivity. }
    assert (Hd : In row (dropna close)) by (apply dropna_Q; auto).
    destruct (run_engine_all_valid m w A) as [pnl [curve [E [L _]]]].
    destruct close as [|r0 close]; [ destruct Hr | ].
    unfold show_results; rewrite E.
    destruct (iloc_last curve) as [final|] eqn:F.
    + destruct (win_rate_of_returns pnl) as [rate ->]; cbv zeta; eauto.
    + apply iloc_last_None in F; subst curve.
      destruct (dropna (r0 :: close)); [ destruct Hd | discriminate ].
Qed.

Lemma show_results_outcomes_witness :
  show_results Futures scenario_config [(1%Z, None); (2%Z, None)]
  = Failed IndexError /\
  show_results Stock scenario_config [(1%Z, Some 100); (2%Z, Some (-37))]
  = Failed (Python ValueError).
Proof.
  assert (Hi : ~ initial_inr scenario_config == 0) by discriminate.
  split.
  - apply (@show_results_outcomes Futures scenario_config
             [(1%Z, None); (2%Z, None)] Hi);
      [ discriminate | ].
    intros row [<-|[<-|[]]]; reflexivity.
  - apply (@show_results_outcomes Stock scenario_config
             [(1%Z, Some 100); (2%Z, Some (-37))] Hi).
    exists 2%Z, (-37); split; [ cbn; tauto | discriminate ].
Defined.

(** ** The win rate of the stock mode *)

Lemma rounded_gain_is_positive (gain : Q) : 1 <= gain -> 0 < round gain 2.
Proof.
  intro G. pose proof (round_2_error gain) as E.
  apply Qabs_Qle_condition in E; destruct E as [E _]. lra.
Qed.

Lemma stock_bar_gains (c : stock_config Q) s bar s' :
  100 <= initial_inr c -> 0 <= add_inr c -> 1 <= profit_pct c ->
  stock_safe s -> gains_so_far s -> stock_bar c s bar = Ok s' ->
  gains_so_far s'.
Proof.
  intros Hi Ha Hp Hs [F C] E.
  destruct (bar_cases bar) as [V|[date [price [-> P]]]].
  - destruct bar as [date price].
    rewrite stock_bar_skip in E by assumption; ok_inv E; split; assumption.
  - destruct (stock_bar_view c date Hs P E) as [s2 [-> HV]].
    unfold gains_so_far; cbn [stock_mark trades in_position position_cost].
    destruct HV as [[I HO]|[last [s1 [I [L [Pl [HA HS]]]]]]].
    + destruct HO as [-> [_ [_ [-> _]]]].
      split; [ | intros _; assumption ].
      apply Forall_app; split; [ assumption | ].
      repeat constructor; intros v N; discriminate.
    + assert (G1 : Forall gain_row (trades s1) /\ 100 <= position_cost s1).
      { destruct HA as [HA|[_ ->]]; [ | split; auto ].
        destruct HA as [_ [-> [_ [_ [-> _]]]]].
        split; [ | specialize (C I); lra ].
        apply Forall_app; split; [ assumption | ].
        repeat constructor; intros v N; discriminate. }
      destruct G1 as [F1 C1].
      destruct HS as [HS|[_ ->]]; [ | split; [ assumption | auto ] ].
      destruct HS as [G [T [-> [_ [_ [_ [_ [_ ->]]]]]]]].
      split; [ | discriminate ].
      apply Forall_app; split; [ assumption | ].
      repeat constructor; intros v N.
      cbn [sell_all_row t_pnl] in N; ok_inv N.
      apply rounded_gain_is_positive.
      pose proof (target_gain_share (cost := position_cost s1) G T) as K.
      assert (M : 100 * 1 <= position_cost s1 * profit_pct c)
        by (apply Qmult_le_compat_nonneg; split; try assumption;
            discriminate).
      lra.
Qed.

Lemma stock_loop_gains (c : stock_config Q) prices s :
  100 <= initial_inr c -> 0 <= add_inr c -> 1 <= profit_pct c ->
  backtest_stock_loop c prices = Ok s ->
  forall v, In (Some v) (map (@t_pnl Q) (trades s)) -> 0 < v.
Proof.
  intros Hi Ha Hp E.
  assert (G : gains_so_far s).
  { apply (@stock_loop_invariant c gains_so_far) with (prices := prices);
      [ split; [ constructor | discriminate ] | | exact E ].
    intros s0 bar s1 S0 G0; apply stock_bar_gains; assumption. }
  destruct G as [F _]; intros v Hv.
  apply in_map_iff in Hv; destruct Hv as [t [Ht Hin]].
  rewrite Forall_forall in F; apply (F t Hin); assumption.
Qed.

(** X12: in the stock mode, under the bounds of the sidebar that matter
    (an initial amount of at least 100, a non-negative add amount, a
    profit percentage of at least 1), every sale records a positive
    [pnl]: when the application shows its figures, the win rate is either
    not shown (nothing was sold) or is 100. *)
Theorem stock_win_rate_is_100 (w : stock_config Q)
        (close : list (Date * option Q)) (figures : metrics Q) :
  100 <= initial_inr w -> 0 <= add_inr w -> 1 <= profit_pct w ->
  show_results Stock w close = Shown figures ->
  win_rate figures = None \/
  exists rate, win_rate figures = Some rate /\ rate == 100.
Proof.
  intros Hi Ha Hp E.
  destruct close as [|r0 close]; [ discriminate | ].
  unfold show_results, run_engine in E.
  destruct (stock_run_outcome w (dropna (r0 :: close))) as [s [El [_ R]]].
  rewrite R in E.
  destruct (pd_Series (equity s) (map fst (dropna (r0 :: close))))
    as [curve|e]; cbn [bind fst snd] in E; [ | discriminate ].
  destruct (iloc_last curve) as [final|]; [ | discriminate ].
  cbv zeta in E.
  pose proof (@stock_loop_gains w _ s Hi Ha Hp El) as G.
  destruct (win_rate_of_gains _ G) as [W|[rate [W Q100]]];
    rewrite W in E; injection E as <-; cbn [win_rate]; eauto.
Qed.

Lemma stock_win_rate_is_100_witness :
  exists figures,
    show_results Stock scenario_config
      [(1%Z, Some 100); (2%Z, None); (3%Z, Some 106); (4%Z, Some 100)]
    = Shown figures /\
    exists rate, win_rate figures = Some rate /\ rate == 100.
Proof.
  assert (Hi : 100 <= initial_inr scenario_config) by discriminate.
  assert (Ha : 0 <= add_inr scenario_config) by discriminate.
  assert (Hp : 1 <= profit_pct scenario_config) by discriminate.
  assert (E : exists figures,
             show_results Stock scenario_config
               [(1%Z, Some 100); (2%Z, None); (3%Z, Some 106);
                (4%Z, Some 100)] = Shown figures)
    by (eexists; reflexivity).
  destruct E as [figures E].
  exists figures; split; [ exact E | ].
  destruct (@stock_win_rate_is_100 _ _ _ Hi Ha Hp E) as [N|H]; [ | exact H ].
  exfalso. vm_compute in E. injection E as <-. discriminate N.
Defined.

End Further.

(** * A further property, on any arithmetic *)

Section FurtherOnAnyArithmetic.

Context {R : Type} `{Lawful R}.
Local Open Scope num_scope.



End FurtherOnAnyArithmetic.

(** * The engines on binary64 numbers *)

Module Binary64Run.

Import PrimFloat Binary64 Binary64Laws.

#[local] Existing Instance float_number.

#[local] Set Warnings "-inexact-float".

(** The run of the scenario in binary64 arithmetic: the same ledger, an
    average entry price of 98.477..., and 20715.46... on the last bar. *)
Lemma binary64_scenario :
  exists ledger curve s,
    backtest_stock scenario_config64 scenario_prices64 = Ok (ledger, curve) /\
    backtest_stock_loop scenario_config64 scenario_prices64 = Ok s /\
    map (@t_action float) ledger = [BUY_INIT; BUY_ADD] /\
    map (@t_shares float) ledger = [100; 103.0928]%float /\
    PrimFloat.div (position_cost s) (position_shares s)
    = 98.477157360406096%float /\
    curve = [(1%Z, 10000); (2%Z, 10000); (3%Z, 19700); (4%Z, 19700);
             (5%Z, 20715.463917525773)]%float.
Proof.
  do 3 eexists; split; [ reflexivity | split; [ reflexivity | ] ].
  repeat split; vm_compute; reflexivity.
Qed.

(** A NaN price is skipped like a non-positive one. *)
Lemma binary64_nan_bar :
  backtest_stock_loop scenario_config64 [(1%Z, Some nan)] = Ok stock_init /\
  backtest_stock scenario_config64 [(1%Z, Some nan)] = Raise ValueError.
Proof. split; vm_compute; reflexivity. Qed.

(** ** Skipped bars *)

(** A missing price between two valid ones: the call raises. *)
Lemma skipped_bar_breaks_the_curve_witness :
  invalid (snd (2%Z, Some nan)) = true /\
  backtest_stock scenario_config64
    ([(1%Z, Some 100%float)] ++ (2%Z, Some nan) :: [(3%Z, Some 102%float)])
  = Raise ValueError /\
  forall out,
    backtest_futures app_futures_config64
      ([(1%Z, Some 100%float)] ++ (2%Z, Some nan) :: [(3%Z, Some 102%float)])
    <> Ok out.
Proof.
  assert (V : invalid (snd (2%Z, Some nan)) = true) by reflexivity.
  destruct (skipped_bar_breaks_the_curve scenario_config64
              app_futures_config64 [(1%Z, Some 100%float)]
              [(3%Z, Some 102%float)] (2%Z, Some nan) V)
    as [_ [E [_ N]]].
  split; [ exact V | split; [ exact E | exact N ] ].
Defined.

(** ** The position between two bars *)

(** C6, as the specification states it, fails on binary64 numbers, for
    positive amounts.  With the default amounts of 10000, a first bar at an
    infinite price opens a position of [10000 / inf = 0] shares; with
    amounts of 1e-320, so does a first bar at a price of 1e10, where the
    quotient underflows.  In both a position is open with a size of 0 and
    a cost basis that is not 0. *)
Lemma open_position_of_size_zero :
  (exists s,
      backtest_stock_loop scenario_config64 [(1%Z, Some infinity)] = Ok s /\
      in_position s = true /\
      (position_shares s =? 0)%float = true /\
      (0 <? position_shares s)%float = false /\
      position_cost s = 10000%float) /\
  (exists s,
      (0 <? initial_inr tiny_amounts64)%float = true /\
      backtest_stock_loop tiny_amounts64 [(1%Z, Some 1e10%float)] = Ok s /\
      in_position s = true /\
      (position_shares s =? 0)%float = true /\
      (0 <? position_shares s)%float = false /\
      (position_cost s =? 0)%float = false).
Proof.
  split; eexists; repeat split; vm_compute; reflexivity.
Qed.

(** The scenario, where every purchase buys a positive size, in the two
    engines. *)
Lemma position_invariant_after_each_bar_witness :
  (exists s,
      backtest_stock_loop scenario_config64 scenario_prices64 = Ok s /\
      (in_position s = true <-> above_zero (position_shares s)) /\
      (last_buy_price s <> None <-> in_position s = true)) /\
  (exists fs,
      backtest_futures_loop app_futures_config64 scenario_prices64 = Ok fs /\
      (fin_position fs = true <-> (0 < lots fs)%Z) /\
      (flast_buy_price fs <> None <-> fin_position fs = true)).
Proof.
  destruct (position_invariant_after_each_bar scenario_config64
              app_futures_config64 scenario_prices64)
    as [[s E] [Hs [_ [Hf _]]]].
  split.
  - destruct (Hs s E) as [L [_ [_ Hq]]].
    exists s; split; [ exact E | split; [ | exact L ] ].
    apply Hq.
    intros date price [B|[B|[B|[B|[B|[]]]]]] _; injection B as <- <-;
      split; vm_compute; reflexivity.
  - assert (Ef : exists fs,
               backtest_futures_loop app_futures_config64 scenario_prices64
               = Ok fs) by (eexists; vm_compute; reflexivity).
    destruct Ef as [fs Ef].
    destruct (Hf eq_refl fs Ef) as [P [_ L]].
    exists fs; split; [ exact Ef | split; [ exact P | exact L ] ].
Defined.

(** ** The futures position is a whole number of lots *)

(** One lot held at 100, and a bar at 95: a drawdown of 5, a second lot,
    and a cost basis of 195. *)
Lemma lots_are_whole_witness :
  exists s',
    futures_add app_futures_config64 one_lot_at_100_64 2%Z 95%float
    = Ok s' /\
    lots s' = 2%Z /\ total_cost s' = 195%float.
Proof.
  assert (Hl : (0 < initial_lots app_futures_config64)%Z) by reflexivity.
  destruct (lots_are_whole app_futures_config64 Hl) as [_ [_ [A _]]].
  destruct (A one_lot_at_100_64 2%Z 100%float 95%float eq_refl eq_refl)
    as [s' [E T]].
  exists s'; split; [ exact E | ].
  vm_compute in T; destruct T as [T1 [T2 _]]; split; assumption.
Defined.

(** ** Inclusive thresholds *)

(** With a drop percentage of 3, the drawdown from 100 to 97 is computed
    as 3: the bar adds.  With a profit percentage of 10, the target of an
    average of 100 is computed as 110.00000000000001: a bar at that price
    sells. *)
Lemma thresholds_are_inclusive_witness :
  let c := boundary_config64 in
  computed_drawdown 100%float 97%float = drop_pct c /\
  after_add c held_100_at_100_64 2%Z 100%float 97%float
  = added c held_100_at_100_64 2%Z 97%float /\
  computed_target 100%float 10%float = 110.00000000000001%float /\
  after_sell c held_100_at_100_64 2%Z 110.00000000000001%float
  = sold held_100_at_100_64 2%Z 110.00000000000001%float.
Proof.
  intro c.
  assert (D : computed_drawdown 100%float 97%float = drop_pct c)
    by (vm_compute; reflexivity).
  assert (T : computed_target 100%float 10%float = 110.00000000000001%float)
    by (vm_compute; reflexivity).
  destruct (@thresholds_are_inclusive float _ _) as [HS _].
  split; [ exact D | split; [ | split; [ exact T | ] ] ].
  - destruct (HS c held_100_at_100_64 2%Z 100%float 97%float
                eq_refl eq_refl eq_refl eq_refl) as [_ [A _]].
    apply A; [ reflexivity | exact D ].
  - assert (N : after_add c held_100_at_100_64 2%Z 100%float
                  110.00000000000001%float = held_100_at_100_64)
      by (vm_compute; reflexivity).
    destruct (HS c held_100_at_100_64 2%Z 100%float 110.00000000000001%float
                eq_refl eq_refl eq_refl eq_refl) as [_ [_ S]].
    cbv zeta in S; rewrite N in S.
    apply S; vm_compute; reflexivity.
Defined.

(** The price that the same target is in exact arithmetic, 110, is below
    the computed target: a bar at 110 does not sell. *)
Lemma binary64_boundary_price :
  (110 <? computed_target 100 10)%float = true /\
  after_sell boundary_config64 held_100_at_100_64 2%Z 110%float
  = held_100_at_100_64 /\
  computed_drawdown 100%float 71%float = 28.999999999999996%float.
Proof. repeat split; vm_compute; reflexivity. Qed.

(** ** Sells and the realized profit *)



(** ** The outcome of a call *)


End Binary64Run.
